(** * Roster CSV import/export: a shallow embedding of the [App] component

    The development follows the source top-down: JavaScript strings and the
    built-ins the code calls ([trim], [split], [replace], [parseInt],
    [toUpperCase], [Array.prototype.sort]), the regular expression of the
    tokenizer with its backtracking written out, the per-row import logic,
    the exporter, and the component state with its array references. *)

From Stdlib Require Import String Ascii ZArith NArith Lia.
From Stdlib Require Import Sorting.Sorted.
From stdpp Require Import base option list gmap.

Local Open Scope N_scope.

(** ** JavaScript strings

    A JavaScript string is a sequence of UTF-16 code units; regular
    expressions without the [u] flag, [trim], [split] and [replace] all work
    on code units. *)

Abbreviation char := N (only parsing).
Abbreviation jsstring := (list N) (only parsing).

(** ASCII literals of the source, as code units. *)
Fixpoint str (s : string) : jsstring :=
  match s with
  | EmptyString => []
  | String a s' => N_of_ascii a :: str s'
  end.

Definition QUOTE : char := 34.
Definition COMMA : char := 44.
Definition LF : char := 10.
Definition CR : char := 13.
Definition BOM : char := 0xFEFF.

(** [LineTerminator] of ECMA-262: the code units that [.] refuses. *)
Definition isLineTerminator (c : char) : bool :=
  (c =? 0x0A) || (c =? 0x0D) || (c =? 0x2028) || (c =? 0x2029).

(** [WhiteSpace] and [LineTerminator] together: the class [\s] of regular
    expressions, and the set that [trim] and [parseInt] strip. *)
Definition isSpace (c : char) : bool :=
  (c =? 0x09) || (c =? 0x0B) || (c =? 0x0C) || (c =? 0x20) || (c =? 0xA0)
  || (c =? 0x1680) || ((0x2000 <=? c) && (c <=? 0x200A))
  || (c =? 0x202F) || (c =? 0x205F) || (c =? 0x3000) || (c =? 0xFEFF)
  || isLineTerminator c.

(** [a || b] on strings: the empty string is falsy. *)
Definition orElse (a b : jsstring) : jsstring :=
  match a with
  | [] => b
  | _ :: _ => a
  end.

(** [val || ''] where [val] may be [undefined] (an index past the end). *)
Definition orEmpty (val : option jsstring) : jsstring :=
  match val with
  | Some v => orElse v []
  | None => []
  end.

(** [String.prototype.trim]. *)
Fixpoint trimStart (s : jsstring) : jsstring :=
  match s with
  | [] => []
  | c :: s' => if isSpace c then trimStart s' else s
  end.

Definition trimEnd (s : jsstring) : jsstring := rev (trimStart (rev s)).

Definition trim (s : jsstring) : jsstring := trimEnd (trimStart s).

(** [s.split(',')]: always at least one piece. *)
Fixpoint splitComma (s : jsstring) : list jsstring :=
  match s with
  | [] => [[]]
  | c :: s' =>
      if c =? COMMA then [] :: splitComma s'
      else match splitComma s' with
           | piece :: pieces => (c :: piece) :: pieces
           | [] => [[c]]
           end
  end.

(** [text.split(/\r?\n/)]: a line feed separates, and takes a carriage
    return just before it into the separator. *)
Fixpoint splitLines (s : jsstring) : list jsstring :=
  match s with
  | [] => [[]]
  | c :: s' =>
      match s' with
      | d :: s'' =>
          if (c =? CR) && (d =? LF) then [] :: splitLines s''
          else if c =? LF then [] :: splitLines s'
          else match splitLines s' with
               | piece :: pieces => (c :: piece) :: pieces
               | [] => [[c]]
               end
      | [] => if c =? LF then [[]; []] else [[c]]
      end
  end.

(** [pieces.join(sep)]. *)
Fixpoint join (sep : jsstring) (pieces : list jsstring) : jsstring :=
  match pieces with
  | [] => []
  | [p] => p
  | p :: rest => p ++ sep ++ join sep rest
  end.

(** ** The tokenizer's regular expression

    [/(Q.*?Q|[^Q,\s]+)(?=\s*,|\s*$)/g], where Q stands for the double
    quote, with the backtracking of each piece written as the recursion that
    performs it. A matcher takes the input
    from the current position on and returns the matched text with the
    input that follows it. *)

(** The lookahead [(?=\s*,|\s*$)]. A comma is not white space and neither is
    the end, so stepping over white space one unit at a time and then
    testing for a comma or the end tries exactly the splits that [\s*]
    backtracks through. *)
Fixpoint lookahead (s : jsstring) : bool :=
  match s with
  | [] => true
  | c :: s' =>
      if c =? COMMA then true
      else if isSpace c then lookahead s'
      else false
  end.

(** [.*?Q] followed by the lookahead, after the opening quote. The lazy
    star first tries to close here; when the closing quote or the lookahead
    fails it takes one more unit that [.] accepts and tries again. [acc] is
    the text matched so far, reversed. *)
Fixpoint lazyQuoted (s : jsstring) (acc : jsstring) : option (jsstring * jsstring) :=
  match s with
  | [] => None
  | c :: s' =>
      if (c =? QUOTE) && lookahead s' then Some (rev (c :: acc), s')
      else if isLineTerminator c then None
      else lazyQuoted s' (c :: acc)
  end.

(** First alternative, [Q.*?Q]. *)
Definition matchQuoted (s : jsstring) : option (jsstring * jsstring) :=
  match s with
  | c :: s' => if c =? QUOTE then lazyQuoted s' [c] else None
  | [] => None
  end.

Definition isPlain (c : char) : bool :=
  negb (c =? QUOTE) && negb (c =? COMMA) && negb (isSpace c).

(** Second alternative, [[^Q,\s]+] followed by the lookahead. The greedy
    plus takes another unit whenever the rest of the pattern then succeeds,
    and otherwise stops here and tests the lookahead. *)
Fixpoint matchPlain (s : jsstring) : option (jsstring * jsstring) :=
  match s with
  | [] => None
  | c :: s' =>
      if isPlain c then
        match matchPlain s' with
        | Some (t, rest) => Some (c :: t, rest)
        | None => if lookahead s' then Some ([c], s') else None
        end
      else None
  end.

(** One attempt of the whole pattern at the current position: the
    alternatives in order. *)
Definition matchAt (s : jsstring) : option (jsstring * jsstring) :=
  match matchQuoted s with
  | Some r => Some r
  | None => matchPlain s
  end.

(** The global scan of [String.prototype.match]: try the pattern at
    [lastIndex]; on a match record it and move [lastIndex] to its end, else
    move one unit on; stop at the end of the input. [skip] counts the units
    that remain before [lastIndex]. *)
Fixpoint scanFrom (s : jsstring) (skip : nat) : list jsstring :=
  match s with
  | [] => []
  | _ :: s' =>
      match skip with
      | S k => scanFrom s' k
      | O =>
          match matchAt s with
          | Some (t, _) => t :: scanFrom s' (Nat.pred (length t))
          | None => scanFrom s' 0
          end
      end
  end.

Definition matchAll (line : jsstring) : list jsstring := scanFrom line 0.

(** [line.match(re) || line.split(',')]: [match] answers [null] when there
    is no match at all, and only then is the line split on commas. *)
Definition tokenize (line : jsstring) : list jsstring :=
  match matchAll line with
  | [] => splitComma line
  | t :: ts => t :: ts
  end.

(** ** [clean]

    [(val || '').replace(/^Q|Q$/g, '').replace(/QQ/g, 'Q').trim()], Q being
    the double quote. *)

(** [/^Q|Q$/g] replaced by nothing: a quote at the start goes, and a quote
    at the end of what is left goes. *)
Definition stripLeadingQuote (s : jsstring) : jsstring :=
  match s with
  | c :: s' => if c =? QUOTE then s' else s
  | [] => []
  end.

Fixpoint stripTrailingQuote (s : jsstring) : jsstring :=
  match s with
  | [] => []
  | [c] => if c =? QUOTE then [] else [c]
  | c :: s' => c :: stripTrailingQuote s'
  end.

Definition stripQuotes (s : jsstring) : jsstring :=
  stripTrailingQuote (stripLeadingQuote s).

(** [/QQ/g] replaced by one quote, left to right without overlap. *)
Fixpoint collapseQuotes (s : jsstring) : jsstring :=
  match s with
  | [] => []
  | c :: s' =>
      match s' with
      | d :: s'' =>
          if (c =? QUOTE) && (d =? QUOTE) then QUOTE :: collapseQuotes s''
          else c :: collapseQuotes s'
      | [] => [c]
      end
  end.

Definition clean (val : option jsstring) : jsstring :=
  trim (collapseQuotes (stripQuotes (orEmpty val))).

(** ** Numbers

    The numeric fields hold integral Numbers. [Z] carries the integer that
    [parseInt] computes and that [Number.prototype.toString] prints; the two
    agree with the stored double on the safe integers, the range in which the
    statements below speak of stored values. [None] is [NaN]. *)

Definition MAX_SAFE_INTEGER : Z := 9007199254740991.

Definition isSafeInteger (z : Z) : bool :=
  ((- MAX_SAFE_INTEGER <=? z) && (z <=? MAX_SAFE_INTEGER))%Z.

(** The value of a code unit as a digit of the radix, when it is one. *)
Definition digitValue (radix : N) (c : char) : option N :=
  let v := if (48 <=? c) && (c <=? 57) then Some (c - 48)
           else if (97 <=? c) && (c <=? 122) then Some (c - 87)
           else if (65 <=? c) && (c <=? 90) then Some (c - 55)
           else None in
  match v with
  | Some d => if d <? radix then Some d else None
  | None => None
  end.

(** The digits before the first code unit that is not a digit of the radix. *)
Fixpoint digitRun (radix : N) (s : jsstring) : list N :=
  match s with
  | [] => []
  | c :: s' =>
      match digitValue radix c with
      | Some d => d :: digitRun radix s'
      | None => []
      end
  end.

Definition mathInt (radix : N) (ds : list N) : N :=
  fold_left (fun a d => a * radix + d) ds 0.

(** A leading minus or plus sign, and what follows it. *)
Definition takeSign (s : jsstring) : bool * jsstring :=
  match s with
  | c :: r => if c =? 45 then (true, r) else if c =? 43 then (false, r) else (false, s)
  | [] => (false, s)
  end.

(** The radix: 16 after a [0x] or [0X] prefix, which is removed, else 10. *)
Definition takeRadix (s : jsstring) : N * jsstring :=
  match s with
  | c :: d :: r =>
      if (c =? 48) && ((d =? 120) || (d =? 88)) then (16, r) else (10, s)
  | _ => (10, s)
  end.

(** [parseInt(string)] with no radix argument: strip leading white space,
    take a sign, take the radix, read the longest run of digits; no digit
    at all is [NaN]. *)
Definition parseInt (s : jsstring) : option Z :=
  let '(negative, s1) := takeSign (trimStart s) in
  let '(radix, s2) := takeRadix s1 in
  match digitRun radix s2 with
  | [] => None
  | ds => Some (if negative then (- Z.of_N (mathInt radix ds))%Z
                else Z.of_N (mathInt radix ds))
  end.

(** [parseInt(...) || 1]: [NaN] and zero are falsy. *)
Definition orOne (v : option Z) : Z :=
  match v with
  | None => 1%Z
  | Some 0%Z => 1%Z
  | Some z => z
  end.

(** Decimal digits of a natural number, most significant first; [fuel]
    bounds the number of digits. *)
Fixpoint decimalOf (fuel : nat) (n : N) (acc : list N) : list N :=
  match fuel with
  | O => acc
  | S f =>
      let acc' := n mod 10 :: acc in
      if n / 10 =? 0 then acc' else decimalOf f (n / 10) acc'
  end.

Definition digitChar (d : N) : char := 48 + d.

Definition decimalText (n : N) : jsstring :=
  map digitChar (decimalOf (S (N.to_nat (N.size n))) n []).

(** [Number.prototype.toString] on an integral Number, as [join] applies it
    to the numeric cells of a row. It prints the digits in full below 10^21
    in magnitude and an exponent form from there on; the digits in full are
    modelled, and every statement about the value that is read back from
    the printed text bounds the number by [isSafeInteger]. *)
Definition numberToString (z : Z) : jsstring :=
  match z with
  | Z0 => decimalText 0
  | Zpos p => decimalText (Npos p)
  | Zneg p => 45 :: decimalText (Npos p)
  end.

(** [String.prototype.toUpperCase] on Basic Latin. The code compares the
    result with the one-letter strings A, B and C only, and the Unicode case
    mapping sends no code unit other than a, b and c to them. *)
Definition upperUnit (c : char) : char :=
  if (97 <=? c) && (c <=? 122) then c - 32 else c.

Definition toUpperCase (s : jsstring) : jsstring := map upperUnit s.

(** ** Data model ([types.ts]) *)

Inductive ClassGroup := GroupA | GroupB | GroupC.

#[global] Instance ClassGroup_eq_dec : EqDecision ClassGroup.
Proof. solve_decision. Defined.

(** The string that a [ClassGroup] value is at run time. *)
Definition groupText (g : ClassGroup) : jsstring :=
  match g with
  | GroupA => [65]
  | GroupB => [66]
  | GroupC => [67]
  end.

Record Student := mkStudent {
  id : jsstring;
  grade : Z;
  schoolClass : Z;
  number : Z;
  group : ClassGroup;
  name : jsstring;
  phone : jsstring;
  remarks : jsstring;
  createdAt : Z
}.

(** The seven fields that [StudentInput] shares with [Student]. *)
Definition fieldValues (s : Student)
  : Z * Z * Z * ClassGroup * jsstring * jsstring * jsstring :=
  (grade s, schoolClass s, number s, group s, name s, phone s, remarks s).

Inductive ViewMode := ALL | Tab (g : ClassGroup).

(** ** Import of one data line ([handleCsvImport], the loop body) *)

(** The placeholder that the loop body names for an empty name. *)
Definition NO_NAME : jsstring := [0xC774; 0xB984; 0xC5C6; 0xC74C].

(** [['A','B','C'].includes(groupRaw) ? groupRaw : 'A'] *)
Definition pickGroup (groupRaw : jsstring) : ClassGroup :=
  match find (fun g => bool_decide (groupText g = groupRaw)) [GroupA; GroupB; GroupC] with
  | Some g => g
  | None => GroupA
  end.

(** The ambient generators [crypto.randomUUID] and [Date.now], by call
    count. *)
Record Env := mkEnv {
  randomUUID : nat -> jsstring;
  dateNow : nat -> Z
}.

(** The body of the loop for one line; [None] is [continue]. [k] counts the
    records produced so far. *)
Definition importRow (env : Env) (k : nat) (line : jsstring) : option Student :=
  let parts := tokenize line in
  match clean (parts !! 4%nat) with
  | [] => None
  | _ :: _ =>
      let grade := orOne (parseInt (clean (parts !! 0%nat))) in
      let schoolClass := orOne (parseInt (clean (parts !! 1%nat))) in
      let number := orOne (parseInt (clean (parts !! 2%nat))) in
      let groupRaw := toUpperCase (clean (parts !! 3%nat)) in
      let group := pickGroup groupRaw in
      let name := orElse (clean (parts !! 4%nat)) NO_NAME in
      let phone := orElse (clean (parts !! 5%nat)) [] in
      let remarks := orElse (clean (parts !! 6%nat)) [] in
      Some (mkStudent (randomUUID env k) grade schoolClass number group
                      name phone remarks (dateNow env k))
  end.

(** [lines.slice(1).filter(line => line.trim() !== '')] *)
Definition dataLines (text : jsstring) : list jsstring :=
  filter (fun line => trim line <> []) (drop 1 (splitLines text)).

(** The [for] loop over the data lines, producing [importedStudents]. *)
Fixpoint importLoop (env : Env) (k : nat) (lines : list jsstring) : list Student :=
  match lines with
  | [] => []
  | line :: rest =>
      match importRow env k line with
      | Some s => s :: importLoop env (S k) rest
      | None => importLoop env k rest
      end
  end.

(** ** Export ([exportToCsv]) *)

Definition headers : list jsstring :=
  [ [0xD559; 0xB144]; [0xBC18]; [0xBC88; 0xD638];
    [0xBC29; 0xACFC; 0xD6C4; 0xADF8; 0xB8F9]; [0xC774; 0xB984];
    [0xC804; 0xD654; 0xBC88; 0xD638]; [0xBE44; 0xACE0] ].

(** [a.group.localeCompare(b.group)] on the values of [ClassGroup]: every
    collation puts A before B before C. *)
Definition groupRank (g : ClassGroup) : Z :=
  match g with
  | GroupA => 0
  | GroupB => 1
  | GroupC => 2
  end.

Definition localeCompare (a b : ClassGroup) : Z :=
  match (groupRank a ?= groupRank b)%Z with
  | Lt => (-1)%Z
  | Eq => 0%Z
  | Gt => 1%Z
  end.

(** The comparator handed to [sort]. *)
Definition compareStudents (a b : Student) : Z :=
  if negb (bool_decide (group a = group b)) then localeCompare (group a) (group b)
  else if negb (grade a =? grade b)%Z then (grade a - grade b)%Z
  else if negb (schoolClass a =? schoolClass b)%Z then (schoolClass a - schoolClass b)%Z
  else (number a - number b)%Z.

(** [Array.prototype.sort] is stable, and for a comparator that is a
    consistent ordering its result is the one stable arrangement of the
    input; inserting from the right, each element before the first one that
    does not come before it, computes that arrangement. *)
Fixpoint insertSorted {T} (cmp : T -> T -> Z) (x : T) (l : list T) : list T :=
  match l with
  | [] => [x]
  | y :: l' =>
      if (cmp x y <=? 0)%Z then x :: y :: l' else y :: insertSorted cmp x l'
  end.

Definition arraySort {T} (cmp : T -> T -> Z) (l : list T) : list T :=
  foldr (insertSorted cmp) [] l.

(** [.replace(/Q/g, 'QQ')]: every double quote doubled. *)
Fixpoint doubleQuotes (s : jsstring) : jsstring :=
  match s with
  | [] => []
  | c :: s' => if c =? QUOTE then QUOTE :: QUOTE :: doubleQuotes s' else c :: doubleQuotes s'
  end.

(** The last cell of a row: the remarks between double quotes. *)
Definition quoteRemarks (s : Student) : jsstring :=
  QUOTE :: doubleQuotes (orElse (remarks s) []) ++ [QUOTE].

(** The cells of one row, as [join] turns them into strings. *)
Definition rowCells (s : Student) : list jsstring :=
  [ numberToString (grade s); numberToString (schoolClass s);
    numberToString (number s); groupText (group s); name s; phone s;
    quoteRemarks s ].

Definition csvContent (sorted : list Student) : jsstring :=
  join [LF] (join [COMMA] headers :: map (fun s => join [COMMA] (rowCells s)) sorted).

(** The text handed to the [Blob]. *)
Definition blobText (sorted : list Student) : jsstring :=
  BOM :: csvContent sorted.

(** [FileReader.readAsText(file, 'UTF-8')] decodes and drops a leading byte
    order mark. *)
Definition readAsText (content : jsstring) : jsstring :=
  match content with
  | c :: rest => if c =? BOM then rest else content
  | [] => []
  end.

(** ** Component state

    [students] is a reference to an array. [setStudents] stores a reference
    to a new array; [filter] allocates a new array; [sort] rearranges the
    array it is called on and returns the same reference. *)

Abbreviation ref := nat (only parsing).

Record App := mkApp {
  heap : gmap nat (list Student);
  nextRef : nat;
  students : nat;
  activeTab : ViewMode;
  produced : nat
}.

Definition deref (h : gmap nat (list Student)) (r : ref) : list Student :=
  default [] (h !! r).

Definition inTab (tab : ViewMode) (s : Student) : bool :=
  match tab with
  | ALL => true
  | Tab g => bool_decide (group s = g)
  end.

(** [filteredStudents], as a render computes it: the array of the state
    itself under ALL, a new array otherwise. Returns the state with the
    allocation, and the reference. *)
Definition filteredStudents (app : App) : App * ref :=
  match activeTab app with
  | ALL => (app, students app)
  | Tab g =>
      let r := nextRef app in
      (mkApp (<[r := filter (fun s => group s = g) (deref (heap app) (students app))]> (heap app))
             (S r) (students app) (activeTab app) (produced app), r)
  end.

(** What the table shows, and what the store's list operation returns: the
    elements of [filteredStudents] in order. *)
Definition listStudents (app : App) : list Student :=
  let '(app', r) := filteredStudents app in deref (heap app') r.

(** [exportToCsv]: [None] is the refusal on an empty array; otherwise the
    text of the downloaded file. *)
Definition exportToCsv (app : App) : App * option jsstring :=
  let '(app1, r) := filteredStudents app in
  match deref (heap app1) r with
  | [] => (app1, None)
  | (_ :: _) as arr =>
      let sorted := arraySort compareStudents arr in
      (mkApp (<[r := sorted]> (heap app1)) (nextRef app1) (students app1)
             (activeTab app1) (produced app1),
       Some (blobText sorted))
  end.

Inductive ImportOutcome := Imported (n : nat) | NothingImported.

(** The [onload] handler of [handleCsvImport]: the new records are appended
    in a new array when there is at least one. *)
Definition handleCsvImport (env : Env) (app : App) (text : jsstring) : App * ImportOutcome :=
  match importLoop env (produced app) (dataLines text) with
  | [] => (app, NothingImported)
  | (_ :: _) as imported =>
      let r := nextRef app in
      (mkApp (<[r := deref (heap app) (students app) ++ imported]> (heap app))
             (S r) r (activeTab app) (produced app + length imported),
       Imported (length imported))
  end.

(** ** Shapes of fields *)

(** A non-empty run of code units outside quote, comma and white space. *)
Definition plainField (f : jsstring) : bool :=
  match f with
  | [] => false
  | _ :: _ => forallb isPlain f
  end.

(** White space, then a comma. *)
Fixpoint commaNext (s : jsstring) : bool :=
  match s with
  | [] => false
  | c :: s' =>
      if c =? COMMA then true
      else if isSpace c then commaNext s'
      else false
  end.

(** Text without a line terminator in which no quote is followed by white
    space and a comma. *)
Fixpoint quotedBodyOk (body : jsstring) : bool :=
  match body with
  | [] => true
  | c :: b =>
      negb (isLineTerminator c) && negb ((c =? QUOTE) && commaNext b)
      && quotedBodyOk b
  end.

(** The fields that the pattern reads whole: a plain field, or such text
    between two quotes. *)
Inductive wellFormedField : jsstring -> Prop :=
  | wf_plain f : plainField f = true -> wellFormedField f
  | wf_quoted body : quotedBodyOk body = true -> wellFormedField (QUOTE :: body ++ [QUOTE]).

(** What may follow a field: the end of the line, or a comma. *)
Definition fieldEnd (rest : jsstring) : Prop :=
  rest = [] \/ exists r, rest = COMMA :: r.

(** Text that [split] on line breaks leaves in one piece. *)
Definition noLineBreak (s : jsstring) : bool :=
  forallb (fun c => negb (isLineTerminator c)) s.

(** The records that survive export and import: numbers other than zero in
    the safe range, name and phone plain fields, remarks such text with no
    white space at either end. *)
Definition roundTrippable (s : Student) : bool :=
  negb (grade s =? 0)%Z && isSafeInteger (grade s)
  && negb (schoolClass s =? 0)%Z && isSafeInteger (schoolClass s)
  && negb (number s =? 0)%Z && isSafeInteger (number s)
  && plainField (name s) && plainField (phone s)
  && quotedBodyOk (remarks s) && bool_decide (trim (remarks s) = remarks s).

(** ** The tokenizer as the specification words it

    Split on commas, except commas between a matched pair of double quotes;
    when the quotes do not pair up, split on every comma. *)

Fixpoint specQuotedSplit (s : jsstring) (inQuotes : bool) : option (list jsstring) :=
  match s with
  | [] => if inQuotes then None else Some [[]]
  | c :: s' =>
      if (c =? COMMA) && negb inQuotes
      then option_map (cons []) (specQuotedSplit s' false)
      else match specQuotedSplit s' (if c =? QUOTE then negb inQuotes else inQuotes) with
           | Some (f :: fs) => Some ((c :: f) :: fs)
           | _ => None
           end
  end.

Definition specTokenize (line : jsstring) : list jsstring :=
  match specQuotedSplit line false with
  | Some fields => fields
  | None => splitComma line
  end.

(** The quoting of RFC 4180: between double quotes, each inner double quote
    doubled; asked of a value that holds a comma, a line break or a double
    quote. *)
Definition rfcQuote (v : jsstring) : jsstring :=
  QUOTE :: doubleQuotes v ++ [QUOTE].

Definition needsQuoting (v : jsstring) : bool :=
  existsb (fun c => (c =? COMMA) || (c =? LF) || (c =? CR) || (c =? QUOTE)) v.

(** ** The order of the export

    The chain that the comparator spells: group first, then grade, then
    schoolClass, then number. *)

Definition keyLe (a b : Student) : Prop :=
  (groupRank (group a) < groupRank (group b)
   \/ (groupRank (group a) = groupRank (group b)
       /\ (grade a < grade b
           \/ (grade a = grade b
               /\ (schoolClass a < schoolClass b
                   \/ (schoolClass a = schoolClass b /\ number a <= number b))))))%Z.

(** Two records agree on the four keys. *)
Definition sameKey (a b : Student) : bool :=
  bool_decide (group a = group b) && (grade a =? grade b)%Z
  && (schoolClass a =? schoolClass b)%Z && (number a =? number b)%Z.

(** ** Sample data for the examples *)

Definition clock0 : Env := mkEnv (fun _ => str "uuid") (fun _ => 0%Z).

Definition kim : Student :=
  mkStudent (str "id-1") 1 2 3 GroupB (str "Kim") (str "010-1111") (str "Good") 10.

Definition lee : Student :=
  mkStudent (str "id-2") 2 1 7 GroupA (str "Lee") (str "010-2222") (str "") 20.

Definition park : Student :=
  mkStudent (str "id-3") 3 1 4 GroupC (str "Park") (str "") (str "Good") 30.

(** The remarks of the quoting example: He said, Q hi Q with Q the double
    quote. *)
Definition heSaid : jsstring := str "He said, " ++ QUOTE :: str "hi" ++ [QUOTE].

Definition choi : Student :=
  mkStudent (str "id-4") 1 1 1 GroupA (str "Choi") (str "010-3333") heSaid 40.

Definition kimLee : Student :=
  mkStudent (str "id-5") 1 1 2 GroupA (str "Kim,Lee") (str "010-4444") (str "") 50.

Definition rosterOf (l : list Student) : App :=
  mkApp (<[0%nat := l]> ∅) 1 0 ALL (length l).

(** A roster holding Kim, then Lee, shown under the tab ALL. *)
Definition rosterAll : App :=
  mkApp (<[0%nat := [kim; lee]]> ∅) 1 0 ALL 2.

(** The same roster under the tab of group B. *)
Definition rosterTabB : App :=
  mkApp (<[0%nat := [kim; lee]]> ∅) 1 0 (Tab GroupB) 2.

(** ** Roster operations ([addStudent], [updateStudent], [deleteStudent])

    [StudentInput] of [types.ts]: the seven fields a form hands over. *)

Module StudentInput.
Record t := mk {
  grade : Z;
  schoolClass : Z;
  number : Z;
  group : ClassGroup;
  name : jsstring;
  phone : jsstring;
  remarks : jsstring
}.
End StudentInput.

(** The array that the state variable [students] refers to. *)
Definition roster (app : App) : list Student :=
  deref (heap app) (students app).

(** [setStudents(prev => next)] with [next] a new array: the array is
    allocated and the state refers to it. *)
Definition setStudents (app : App) (next : list Student) : App :=
  mkApp (<[nextRef app := next]> (heap app)) (S (nextRef app)) (nextRef app)
        (activeTab app) (produced app).

(** [{ ...input, id: crypto.randomUUID(), createdAt: Date.now() }] *)
Definition newStudent (env : Env) (k : nat) (input : StudentInput.t) : Student :=
  mkStudent (randomUUID env k)
            (StudentInput.grade input) (StudentInput.schoolClass input)
            (StudentInput.number input) (StudentInput.group input)
            (StudentInput.name input) (StudentInput.phone input)
            (StudentInput.remarks input)
            (dateNow env k).

(** [addStudent]: [setStudents(prev => [...prev, newStudent])]. *)
Definition addStudent (env : Env) (app : App) (input : StudentInput.t) : App :=
  mkApp (<[nextRef app := roster app ++ [newStudent env (produced app) input]]> (heap app))
        (S (nextRef app)) (nextRef app) (activeTab app) (S (produced app)).

(** [{ ...s, ...input }]: the fields of the input over those of the record,
    which keeps its [id] and [createdAt]. *)
Definition spreadInput (s : Student) (input : StudentInput.t) : Student :=
  mkStudent (id s)
            (StudentInput.grade input) (StudentInput.schoolClass input)
            (StudentInput.number input) (StudentInput.group input)
            (StudentInput.name input) (StudentInput.phone input)
            (StudentInput.remarks input)
            (createdAt s).

(** [updateStudent]:
    [setStudents(prev => prev.map(s => s.id === id ? { ...s, ...input } : s))]. *)
Definition updateStudent (app : App) (target : jsstring) (input : StudentInput.t) : App :=
  setStudents app
    (map (fun s => if bool_decide (id s = target) then spreadInput s input else s)
         (roster app)).

(** [deleteStudent]: [confirmed] is the answer of [window.confirm]; on yes,
    [setStudents(prev => prev.filter(s => s.id !== id))]. *)
Definition deleteStudent (confirmed : bool) (app : App) (target : jsstring) : App :=
  if confirmed
  then setStudents app (filter (fun s => id s <> target) (roster app))
  else app.

(** The tab buttons: [setActiveTab(tab)]. *)
Definition selectTab (app : App) (tab : ViewMode) : App :=
  mkApp (heap app) (nextRef app) (students app) tab (produced app).

(** The statistics bar: [students.length] and, for each group,
    [students.filter(s => s.group === group).length]. *)
Definition totalCount (app : App) : nat := length (roster app).

Definition groupCount (app : App) (g : ClassGroup) : nat :=
  length (filter (fun s => group s = g) (roster app)).

(** The state refers to an array that has been allocated. *)
Definition allocated (app : App) : Prop :=
  (students app < nextRef app)%nat /\ is_Some (heap app !! students app).

(** ** Shapes of tokens *)

(** A token that the first alternative yields: between two quotes, with no
    line terminator. *)
Definition quotedToken (t : jsstring) : bool :=
  match t with
  | c :: r =>
      (c =? QUOTE)
      && match rev r with
         | d :: _ => d =? QUOTE
         | [] => false
         end
      && noLineBreak t
  | [] => false
  end.

Definition tokenShape (t : jsstring) : bool := plainField t || quotedToken t.

(** A line ending of Windows files. *)
Definition CRLF : jsstring := [CR; LF].

(** The name token of a line is not empty after cleaning. *)
Definition hasName (line : jsstring) : bool :=
  negb (bool_decide (clean (tokenize line !! 4%nat) = [])).

(** No text field of the record holds a line terminator. *)
Definition singleLine (s : Student) : bool :=
  noLineBreak (name s) && noLineBreak (phone s) && noLineBreak (remarks s).

(** ** More sample data *)

Definition parkInput : StudentInput.t :=
  StudentInput.mk 3 1 4 GroupC (str "Park") (str "010-5555") (str "new").

(** ** Proof automation *)

(** Case analysis on a decimal digit. *)
Ltac digit_cases d H :=
  let E := fresh "E" in
  assert (E : d = 0 \/ d = 1 \/ d = 2 \/ d = 3 \/ d = 4 \/ d = 5 \/ d = 6
              \/ d = 7 \/ d = 8 \/ d = 9) by lia;
  clear H; repeat (destruct E as [->|E]); [..|subst d].

(** * Properties *)

Example tokenize_simple :
  tokenize (str "1,2,3,a,Kim,010-1111,Good")
  = [str "1"; str "2"; str "3"; str "a"; str "Kim"; str "010-1111"; str "Good"].
Proof. vm_compute. reflexivity. Qed.

Example tokenize_empty_fields :
  tokenize (str ",,,,,,") = [[]; []; []; []; []; []; []].
Proof. vm_compute. reflexivity. Qed.

(** The scenario of a header, one full row and one row of empty fields:
    one record, the second row skipped. *)
Example import_scenario :
  map fieldValues
    (importLoop clock0 0
       (dataLines (str "h,e,a,d,e,r,s" ++ LF :: str "1,2,3,a,Kim,010-1111,Good"
                     ++ LF :: str ",,,,,,")))
  = [(1, 2, 3, GroupA, str "Kim", str "010-1111", str "Good")%Z].
Proof. vm_compute. reflexivity. Qed.

(** An empty field yields no token, so the tokens after it move one column
    to the left: here the phone is read as the name. *)
Example empty_field_shifts_columns :
  tokenize (str "1,2,3,A,,010,note")
  = [str "1"; str "2"; str "3"; str "A"; str "010"; str "note"]
  /\ map fieldValues (importLoop clock0 0 [str "1,2,3,A,,010,note"])
     = [(1, 2, 3, GroupA, str "010", str "note", [])%Z].
Proof. split; vm_compute; reflexivity. Qed.

(** ** The loop body, field by field *)

Lemma importRow_Some env k line s :
  importRow env k line = Some s ->
  clean (tokenize line !! 4%nat) <> []
  /\ s = mkStudent (randomUUID env k)
           (orOne (parseInt (clean (tokenize line !! 0%nat))))
           (orOne (parseInt (clean (tokenize line !! 1%nat))))
           (orOne (parseInt (clean (tokenize line !! 2%nat))))
           (pickGroup (toUpperCase (clean (tokenize line !! 3%nat))))
           (orElse (clean (tokenize line !! 4%nat)) NO_NAME)
           (orElse (clean (tokenize line !! 5%nat)) [])
           (orElse (clean (tokenize line !! 6%nat)) [])
           (dateNow env k).
Proof.
  unfold importRow. intros H.
  destruct (clean (tokenize line !! 4%nat)) as [|c nm] eqn:Hname; [discriminate|].
  split; [discriminate|]. congruence.
Qed.

Lemma importRow_named env k line :
  clean (tokenize line !! 4%nat) <> [] -> is_Some (importRow env k line).
Proof.
  unfold importRow. intros H.
  destruct (clean (tokenize line !! 4%nat)); [congruence | eauto].
Qed.

Lemma orElse_nonempty (a b : jsstring) : a <> [] -> orElse a b = a.
Proof. destruct a; [congruence | reflexivity]. Qed.

Lemma orElse_nil (a : jsstring) : orElse a [] = a.
Proof. destruct a; reflexivity. Qed.

Lemma clean_undefined : clean None = [].
Proof. reflexivity. Qed.

Lemma pickGroup_cases raw :
  (raw = str "A" /\ pickGroup raw = GroupA)
  \/ (raw = str "B" /\ pickGroup raw = GroupB)
  \/ (raw = str "C" /\ pickGroup raw = GroupC)
  \/ (raw <> str "A" /\ raw <> str "B" /\ raw <> str "C" /\ pickGroup raw = GroupA).
Proof.
  unfold pickGroup. cbn [find groupText].
  destruct (decide ([65] = raw)) as [<-|Ha]; [left; split; reflexivity|].
  rewrite (bool_decide_eq_false_2 _ Ha).
  destruct (decide ([66] = raw)) as [<-|Hb]; [right; left; split; reflexivity|].
  rewrite (bool_decide_eq_false_2 _ Hb).
  destruct (decide ([67] = raw)) as [<-|Hc]; [right; right; left; split; reflexivity|].
  rewrite (bool_decide_eq_false_2 _ Hc).
  right; right; right.
  repeat split; try reflexivity; intros ->; [apply Ha | apply Hb | apply Hc]; reflexivity.
Qed.

(** C7. Every record that import produces has group A, B or C: the group
    token, cleaned and uppercased, is kept when it is exactly A, B or C and
    replaced by A otherwise. *)
Theorem import_group_normalised env k line s :
  importRow env k line = Some s ->
  let groupRaw := toUpperCase (clean (tokenize line !! 3%nat)) in
  groupText (group s) ∈ [str "A"; str "B"; str "C"]
  /\ (groupRaw ∈ [str "A"; str "B"; str "C"] -> groupText (group s) = groupRaw)
  /\ (groupRaw ∉ [str "A"; str "B"; str "C"] -> group s = GroupA).
Proof.
  intros H groupRaw. apply importRow_Some in H as [_ ->]. cbn [group].
  fold groupRaw.
  destruct (pickGroup_cases groupRaw)
    as [[-> ->]|[[-> ->]|[[-> ->]|(Ha & Hb & Hc & ->)]]].
  - split; [set_solver|]. split; [reflexivity|]. intros Hn. exfalso. apply Hn. set_solver.
  - split; [set_solver|]. split; [reflexivity|]. intros Hn. exfalso. apply Hn. set_solver.
  - split; [set_solver|]. split; [reflexivity|]. intros Hn. exfalso. apply Hn. set_solver.
  - split; [set_solver|]. split; [|reflexivity].
    intros Hin. rewrite !elem_of_cons, elem_of_nil in Hin.
    destruct Hin as [?|[?|[?|[]]]]; congruence.
Qed.

Lemma import_group_normalised_witness :
  importRow clock0 0 (str "1,2,3,b,Kim,010,ok")
  = Some (mkStudent (str "uuid") 1 2 3 GroupB (str "Kim") (str "010") (str "ok") 0)
  /\ groupText GroupB ∈ [str "A"; str "B"; str "C"].
Proof.
  split; [vm_compute; reflexivity|].
  apply (import_group_normalised clock0 0 (str "1,2,3,b,Kim,010,ok")
           (mkStudent (str "uuid") 1 2 3 GroupB (str "Kim") (str "010") (str "ok") 0)).
  vm_compute; reflexivity.
Defined.

(** ** Skipped rows *)

Lemma importLoop_app env k l1 l2 :
  importLoop env k (l1 ++ l2)
  = importLoop env k l1 ++ importLoop env (k + length (importLoop env k l1)) l2.
Proof.
  revert k. induction l1 as [|line l1 IH]; intros k; cbn [importLoop app length].
  - f_equal. lia.
  - destruct (importRow env k line).
    + cbn [app length]. rewrite IH. do 3 f_equal. lia.
    + apply IH.
Qed.

(** C8. A data line whose fifth token is empty after cleaning produces no
    record: the loop body skips it, the loop yields what it yields without
    the line, and so does the whole import. *)
Theorem empty_name_row_skipped env line :
  clean (tokenize line !! 4%nat) = [] ->
  (forall k, importRow env k line = None)
  /\ (forall k before after,
        importLoop env k (before ++ line :: after) = importLoop env k (before ++ after))
  /\ (forall app text text' before after,
        dataLines text = before ++ line :: after ->
        dataLines text' = before ++ after ->
        handleCsvImport env app text = handleCsvImport env app text').
Proof.
  intros Hname.
  assert (Hrow : forall k, importRow env k line = None).
  { intros k. unfold importRow. rewrite Hname. reflexivity. }
  assert (Hloop : forall k before after,
             importLoop env k (before ++ line :: after) = importLoop env k (before ++ after)).
  { intros k before after. rewrite !importLoop_app. f_equal.
    cbn [importLoop]. rewrite Hrow. reflexivity. }
  repeat split; [exact Hrow | exact Hloop |].
  intros app text text' before after Ht Ht'.
  unfold handleCsvImport. rewrite Ht, Ht', Hloop. reflexivity.
Qed.

Lemma empty_name_row_skipped_witness :
  clean (tokenize (str ",,,,,,") !! 4%nat) = []
  /\ importRow clock0 0 (str ",,,,,,") = None.
Proof.
  split; [vm_compute; reflexivity|].
  apply (empty_name_row_skipped clock0 (str ",,,,,,")).
  vm_compute; reflexivity.
Defined.

(** C9. A data line with a non-empty cleaned name token and fewer than
    seven tokens still produces a record: the loop body is total, a missing
    remarks or phone token becomes the empty string, and a missing numeric
    token becomes 1. *)
Theorem short_row_defaults env k line :
  clean (tokenize line !! 4%nat) <> [] ->
  (length (tokenize line) < 7)%nat ->
  exists s,
    importRow env k line = Some s
    /\ remarks s = []
    /\ ((length (tokenize line) < 6)%nat -> phone s = [])
    /\ (forall i, tokenize line !! i = None ->
                  orOne (parseInt (clean (tokenize line !! i))) = 1%Z).
Proof.
  intros Hname Hlen.
  destruct (importRow_named env k line Hname) as [s Hs].
  exists s. split; [exact Hs|].
  apply importRow_Some in Hs as [_ ->]. cbn [remarks phone].
  split; [|split].
  - rewrite (lookup_ge_None_2 (tokenize line) 6) by lia. reflexivity.
  - intros H6. rewrite (lookup_ge_None_2 (tokenize line) 5) by lia. reflexivity.
  - intros i ->. reflexivity.
Qed.

Lemma short_row_defaults_witness :
  clean (tokenize (str "1,2,3,A,Kim") !! 4%nat) <> []
  /\ (length (tokenize (str "1,2,3,A,Kim")) < 7)%nat
  /\ exists s, importRow clock0 0 (str "1,2,3,A,Kim") = Some s /\ remarks s = [].
Proof.
  assert (H1 : clean (tokenize (str "1,2,3,A,Kim") !! 4%nat) <> [])
    by (vm_compute; discriminate).
  assert (H2 : (length (tokenize (str "1,2,3,A,Kim")) < 7)%nat)
    by (vm_compute; lia).
  split; [exact H1|]. split; [exact H2|].
  destruct (short_row_defaults clock0 0 (str "1,2,3,A,Kim") H1 H2) as (s & Hs & Hr & _).
  exists s. split; assumption.
Defined.

(** C10. The name of every record that import produces is the cleaned name
    token itself, which is not empty: the placeholder for an empty name is
    never substituted, since the loop body has left before for such a
    line. *)
Theorem imported_name_is_token env k line s :
  importRow env k line = Some s ->
  name s = clean (tokenize line !! 4%nat) /\ name s <> [].
Proof.
  intros H. apply importRow_Some in H as [Hname ->]. cbn [name].
  rewrite orElse_nonempty by exact Hname. split; [reflexivity | exact Hname].
Qed.

Lemma imported_name_is_token_witness :
  importRow clock0 0 (str "1,2,3,b,Kim,010,ok")
  = Some (mkStudent (str "uuid") 1 2 3 GroupB (str "Kim") (str "010") (str "ok") 0)
  /\ str "Kim" = clean (tokenize (str "1,2,3,b,Kim,010,ok") !! 4%nat).
Proof.
  split; [vm_compute; reflexivity|].
  apply (imported_name_is_token clock0 0 (str "1,2,3,b,Kim,010,ok")
           (mkStudent (str "uuid") 1 2 3 GroupB (str "Kim") (str "010") (str "ok") 0)).
  vm_compute; reflexivity.
Defined.

(** ** Numeric fields *)

Lemma orOne_nonzero v : orOne v <> 0%Z.
Proof. destruct v as [[| |]|]; discriminate. Qed.

Lemma orOne_kept z : z <> 0%Z -> orOne (Some z) = z.
Proof. destruct z; [congruence | reflexivity | reflexivity]. Qed.

Lemma orOne_default v : v = None \/ v = Some 0%Z -> orOne v = 1%Z.
Proof. intros [->| ->]; reflexivity. Qed.

(** C4, as the claim states it, fails: a negative token is stored as the
    negative number it spells. *)
Lemma negative_grade_is_stored :
  exists s, importRow clock0 0 (str "-5,2,3,A,Kim,010,ok") = Some s
            /\ grade s = (-5)%Z /\ ~ (0 < grade s)%Z.
Proof.
  eexists. split; [vm_compute; reflexivity|]. cbn [grade]. split; [reflexivity | lia].
Qed.

(** C4, amended. In every record that import produces, grade, schoolClass
    and number are never NaN and never zero: a token that is missing, has no
    leading integer or parses to zero becomes 1, and a token that parses to
    another safe integer is stored as that integer, negative ones
    included. *)
Theorem import_numbers_nonzero env k line s :
  importRow env k line = Some s ->
  let parsed i := parseInt (clean (tokenize line !! i)) in
  (grade s <> 0 /\ schoolClass s <> 0 /\ number s <> 0)%Z
  /\ (forall z, z <> 0%Z -> isSafeInteger z = true ->
        (parsed 0%nat = Some z -> grade s = z)
        /\ (parsed 1%nat = Some z -> schoolClass s = z)
        /\ (parsed 2%nat = Some z -> number s = z))
  /\ ((parsed 0%nat = None \/ parsed 0%nat = Some 0%Z) -> grade s = 1%Z)
  /\ ((parsed 1%nat = None \/ parsed 1%nat = Some 0%Z) -> schoolClass s = 1%Z)
  /\ ((parsed 2%nat = None \/ parsed 2%nat = Some 0%Z) -> number s = 1%Z)
  /\ (forall i, tokenize line !! i = None -> parsed i = None).
Proof.
  intros H parsed. apply importRow_Some in H as [_ ->].
  cbn [grade schoolClass number]. fold (parsed 0%nat) (parsed 1%nat) (parsed 2%nat).
  split; [repeat split; apply orOne_nonzero|].
  split; [intros z Hz _; repeat split; intros ->; apply orOne_kept, Hz|].
  repeat split; try apply orOne_default.
  intros i Hi. unfold parsed. rewrite Hi. reflexivity.
Qed.

Lemma import_numbers_nonzero_witness :
  importRow clock0 0 (str "-5,x,0,A,Kim,010,ok")
  = Some (mkStudent (str "uuid") (-5) 1 1 GroupA (str "Kim") (str "010") (str "ok") 0)
  /\ ((-5) <> 0 /\ 1 <> 0 /\ 1 <> 0)%Z.
Proof.
  split; [vm_compute; reflexivity|].
  apply (import_numbers_nonzero clock0 0 (str "-5,x,0,A,Kim,010,ok")
           (mkStudent (str "uuid") (-5) 1 1 GroupA (str "Kim") (str "010") (str "ok") 0)).
  vm_compute; reflexivity.
Defined.

(** ** [Array.prototype.sort] with a consistent comparator *)

Section ArraySort.
Context {T : Type} (cmp : T -> T -> Z).
Hypothesis cmp_total : forall x y, (cmp x y <= 0)%Z \/ (cmp y x <= 0)%Z.
Hypothesis cmp_trans :
  forall x y z, (cmp x y <= 0)%Z -> (cmp y z <= 0)%Z -> (cmp x z <= 0)%Z.

Lemma insertSorted_perm x l : insertSorted cmp x l ≡ₚ x :: l.
Proof.
  induction l as [|y l IH]; cbn [insertSorted]; [reflexivity|].
  destruct (cmp x y <=? 0)%Z; [reflexivity|].
  rewrite IH. apply Permutation_swap.
Qed.

Lemma arraySort_perm l : arraySort cmp l ≡ₚ l.
Proof.
  induction l as [|x l IH]; cbn; [reflexivity|].
  fold (arraySort cmp l). rewrite insertSorted_perm, IH. reflexivity.
Qed.

Lemma insertSorted_sorted x l :
  StronglySorted (fun a b => (cmp a b <= 0)%Z) l ->
  StronglySorted (fun a b => (cmp a b <= 0)%Z) (insertSorted cmp x l).
Proof.
  induction 1 as [|y l Hl IH Hy]; cbn [insertSorted].
  - constructor; [constructor | constructor].
  - destruct (Z.leb_spec (cmp x y) 0) as [Hxy|Hxy].
    + constructor; [constructor; assumption|].
      constructor; [exact Hxy|].
      eapply Forall_impl; [exact Hy|]. intros z Hz. cbn in Hz.
      eapply cmp_trans; eassumption.
    + constructor; [exact IH|].
      rewrite insertSorted_perm. constructor; [|exact Hy].
      destruct (cmp_total x y); [lia | assumption].
Qed.

Lemma arraySort_sorted l :
  StronglySorted (fun a b => (cmp a b <= 0)%Z) (arraySort cmp l).
Proof.
  induction l as [|x l IH]; cbn; [constructor|].
  apply insertSorted_sorted, IH.
Qed.

(** Stability: elements that the comparator does not tell apart keep
    their order. *)
Lemma insertSorted_filter (P : T -> bool) x l :
  (forall a b, P a = true -> P b = true -> (cmp a b <= 0)%Z) ->
  List.filter P (insertSorted cmp x l)
  = if P x then x :: List.filter P l else List.filter P l.
Proof.
  intros HP. induction l as [|y l IH]; cbn [insertSorted List.filter].
  - reflexivity.
  - destruct (Z.leb_spec (cmp x y) 0) as [Hxy|Hxy]; cbn [List.filter].
    + reflexivity.
    + rewrite IH. destruct (P x) eqn:Hx, (P y) eqn:Hy; try reflexivity.
      specialize (HP x y Hx Hy). lia.
Qed.

Lemma arraySort_stable (P : T -> bool) l :
  (forall a b, P a = true -> P b = true -> (cmp a b <= 0)%Z) ->
  List.filter P (arraySort cmp l) = List.filter P l.
Proof.
  intros HP. induction l as [|x l IH]; cbn [List.filter]; [reflexivity|].
  change (arraySort cmp (x :: l)) with (insertSorted cmp x (arraySort cmp l)).
  rewrite insertSorted_filter by exact HP. rewrite IH. reflexivity.
Qed.
End ArraySort.

(** ** The comparator of the export *)

Lemma groupRank_inj a b : groupRank a = groupRank b -> a = b.
Proof. destruct a, b; cbn; congruence || lia. Qed.

Lemma compareStudents_le a b : (compareStudents a b <= 0)%Z <-> keyLe a b.
Proof.
  unfold compareStudents, keyLe, localeCompare.
  destruct (decide (group a = group b)) as [Hg|Hg].
  - rewrite (bool_decide_eq_true_2 _ Hg), Hg. cbn [negb].
    destruct (Z.eqb_spec (grade a) (grade b)) as [He|He]; cbn [negb]; [|lia].
    destruct (Z.eqb_spec (schoolClass a) (schoolClass b)) as [Hc|Hc]; cbn [negb]; lia.
  - rewrite (bool_decide_eq_false_2 _ Hg). cbn [negb].
    assert (groupRank (group a) <> groupRank (group b))
      by (intros Hr; apply Hg, groupRank_inj, Hr).
    destruct (Z.compare_spec (groupRank (group a)) (groupRank (group b))); lia.
Qed.

Lemma keyLe_total a b : keyLe a b \/ keyLe b a.
Proof. unfold keyLe. lia. Qed.

Lemma keyLe_trans a b c : keyLe a b -> keyLe b c -> keyLe a c.
Proof. unfold keyLe. lia. Qed.

Lemma sameKey_le r a b : sameKey r a = true -> sameKey r b = true -> keyLe a b.
Proof.
  unfold sameKey, keyLe. rewrite !andb_true_iff, !bool_decide_eq_true, !Z.eqb_eq.
  intros [[[Hg1 He1] Hc1] Hn1] [[[Hg2 He2] Hc2] Hn2].
  rewrite <- Hg1, <- Hg2. lia.
Qed.

Lemma sortStudents_sorted l : StronglySorted keyLe (arraySort compareStudents l).
Proof.
  eapply StronglySorted_ind with (P := fun l => StronglySorted keyLe l);
    [constructor | | apply (arraySort_sorted compareStudents)].
  - intros a l' _ IH Ha. constructor; [exact IH|].
    eapply Forall_impl; [exact Ha|]. intros b. apply compareStudents_le.
  - intros x y. rewrite !compareStudents_le. apply keyLe_total.
  - intros x y z. rewrite !compareStudents_le. apply keyLe_trans.
Qed.

Lemma sortStudents_stable r l :
  List.filter (sameKey r) (arraySort compareStudents l) = List.filter (sameKey r) l.
Proof.
  apply arraySort_stable. intros a b Ha Hb.
  apply compareStudents_le. eapply sameKey_le; eassumption.
Qed.

Lemma exportToCsv_text app :
  listStudents app <> [] ->
  snd (exportToCsv app) = Some (blobText (arraySort compareStudents (listStudents app))).
Proof.
  unfold exportToCsv, listStudents.
  destruct (filteredStudents app) as [app1 r].
  destruct (deref (heap app1) r); [congruence | reflexivity].
Qed.

(** C6. Export of a non-empty array writes, after the header, one row per
    record in the order of the chain group, grade, schoolClass, number, each
    ascending; the rows are a rearrangement of the records, and records that
    agree on all four keys stay in their input order. *)
Theorem export_rows_sorted_stable app :
  listStudents app <> [] ->
  exists sorted,
    snd (exportToCsv app)
    = Some (BOM :: join [LF] (join [COMMA] headers
                              :: map (fun s => join [COMMA] (rowCells s)) sorted))
    /\ sorted ≡ₚ listStudents app
    /\ StronglySorted keyLe sorted
    /\ (forall r, List.filter (sameKey r) sorted = List.filter (sameKey r) (listStudents app)).
Proof.
  intros Hne. exists (arraySort compareStudents (listStudents app)).
  split; [exact (exportToCsv_text app Hne)|].
  split; [apply arraySort_perm|].
  split; [apply sortStudents_sorted | intros r; apply sortStudents_stable].
Qed.

Lemma export_rows_sorted_stable_witness :
  listStudents rosterAll <> []
  /\ exists sorted,
       snd (exportToCsv rosterAll)
       = Some (BOM :: join [LF] (join [COMMA] headers
                                 :: map (fun s => join [COMMA] (rowCells s)) sorted))
       /\ sorted ≡ₚ listStudents rosterAll.
Proof.
  assert (H : listStudents rosterAll <> []) by (vm_compute; discriminate).
  split; [exact H|].
  destruct (export_rows_sorted_stable rosterAll H) as (sorted & Ht & Hp & _).
  exists sorted. split; assumption.
Defined.

(** ** The array of the state *)

(** C5, at the roster of Kim then Lee under the tab ALL: the array that
    [sort] rearranges is the array of the state, so after an export the
    roster lists Lee before Kim. *)
Theorem export_all_reorders_roster :
  listStudents rosterAll = [kim; lee]
  /\ listStudents (fst (exportToCsv rosterAll)) = [lee; kim].
Proof. split; vm_compute; reflexivity. Qed.

(** Under ALL every export leaves the array of the state sorted. *)
Lemma export_all_sorts_roster app :
  activeTab app = ALL ->
  listStudents (fst (exportToCsv app)) = arraySort compareStudents (listStudents app).
Proof.
  intros Htab. unfold exportToCsv, listStudents, filteredStudents. rewrite Htab.
  destruct (deref (heap app) (students app)) as [|s l] eqn:Harr.
  - cbn [fst]. rewrite Htab, Harr. reflexivity.
  - cbn [fst activeTab heap students]. rewrite Htab.
    cbn [heap]. unfold deref. rewrite lookup_insert_eq. reflexivity.
Qed.

(** Under the tab of a group the sorted array is the copy that [filter]
    made, and the array of the state stays as it was. *)
Lemma export_tab_keeps_roster app g :
  activeTab app = Tab g ->
  (students app < nextRef app)%nat ->
  let app' := fst (exportToCsv app) in
  deref (heap app') (students app') = deref (heap app) (students app)
  /\ listStudents app' = listStudents app.
Proof.
  intros Htab Hlt.
  assert (Hstate : deref (heap (fst (exportToCsv app))) (students (fst (exportToCsv app)))
                   = deref (heap app) (students app)
                   /\ activeTab (fst (exportToCsv app)) = Tab g
                   /\ students (fst (exportToCsv app)) = students app).
  { unfold exportToCsv, filteredStudents. rewrite Htab.
    cbn [heap nextRef students activeTab produced].
    destruct (deref (<[nextRef app:=_]> (heap app)) (nextRef app));
      cbn [fst heap students activeTab];
      unfold deref; rewrite ?lookup_insert_ne by lia; auto. }
  destruct Hstate as (Harr & Htab' & Href).
  cbn zeta. split; [exact Harr|].
  unfold listStudents, filteredStudents. rewrite Htab, Htab'.
  cbn [heap]. unfold deref at 1 3. rewrite !lookup_insert_eq. cbn [default].
  rewrite Harr. reflexivity.
Qed.

(** ** The pattern on well-formed fields *)

Lemma isPlain_inv c :
  isPlain c = true -> (c =? QUOTE) = false /\ (c =? COMMA) = false /\ isSpace c = false.
Proof.
  unfold isPlain. rewrite !andb_true_iff, !negb_true_iff. tauto.
Qed.

Lemma plainField_inv f :
  plainField f = true ->
  exists c f', f = c :: f' /\ isPlain c = true /\ forallb isPlain f' = true.
Proof.
  destruct f as [|c f']; cbn; [discriminate|].
  rewrite andb_true_iff. intros [Hc Hf]. eauto.
Qed.

Lemma fieldEnd_lookahead rest : fieldEnd rest -> lookahead rest = true.
Proof. intros [->|[r ->]]; reflexivity. Qed.

Lemma fieldEnd_matchPlain rest : fieldEnd rest -> matchPlain rest = None.
Proof. intros [->|[r ->]]; reflexivity. Qed.

Lemma matchPlain_run c f rest :
  isPlain c = true -> forallb isPlain f = true -> fieldEnd rest ->
  matchPlain (c :: f ++ rest) = Some (c :: f, rest).
Proof.
  intros Hc Hf Hend. revert c Hc. induction f as [|d f IH]; intros c Hc.
  - cbn [app matchPlain]. rewrite Hc, (fieldEnd_matchPlain _ Hend),
      (fieldEnd_lookahead _ Hend). reflexivity.
  - cbn [forallb] in Hf. apply andb_true_iff in Hf as [Hd Hf].
    change (matchPlain (c :: (d :: f) ++ rest))
      with (if isPlain c then
              match matchPlain (d :: f ++ rest) with
              | Some (t, rest') => Some (c :: t, rest')
              | None => if lookahead (d :: f ++ rest) then Some ([c], d :: f ++ rest) else None
              end
            else None).
    rewrite Hc, (IH Hf d Hd). reflexivity.
Qed.

Lemma lookahead_before_quote b rest : lookahead (b ++ QUOTE :: rest) = commaNext b.
Proof.
  induction b as [|c b IH]; [reflexivity|].
  cbn [app lookahead commaNext]. rewrite IH. reflexivity.
Qed.

Lemma lazyQuoted_body body rest acc :
  quotedBodyOk body = true -> lookahead rest = true ->
  lazyQuoted (body ++ QUOTE :: rest) acc = Some (rev acc ++ body ++ [QUOTE], rest).
Proof.
  intros Hbody Hrest. revert acc. induction body as [|c b IH]; intros acc.
  - cbn [app lazyQuoted]. rewrite Hrest. reflexivity.
  - cbn [quotedBodyOk] in Hbody.
    apply andb_true_iff in Hbody as [Hc Hb]. apply andb_true_iff in Hc as [Hlt Hq].
    apply negb_true_iff in Hlt, Hq.
    cbn [app lazyQuoted]. rewrite lookahead_before_quote, Hq, Hlt, (IH Hb).
    cbn [rev]. rewrite <- app_assoc. reflexivity.
Qed.

Lemma matchAt_field f rest :
  wellFormedField f -> fieldEnd rest -> matchAt (f ++ rest) = Some (f, rest).
Proof.
  intros [f' Hplain|body Hbody] Hend.
  - apply plainField_inv in Hplain as (c & g & -> & Hc & Hg).
    unfold matchAt. cbn [app matchQuoted].
    destruct (isPlain_inv c Hc) as (-> & _ & _).
    apply matchPlain_run; assumption.
  - unfold matchAt. cbn [app matchQuoted]. change (QUOTE =? QUOTE) with true. cbn match.
    rewrite <- app_assoc. cbn [app].
    rewrite lazyQuoted_body by (try apply fieldEnd_lookahead; assumption).
    reflexivity.
Qed.

Lemma wellFormedField_cons f : wellFormedField f -> exists c f', f = c :: f'.
Proof.
  intros [f' Hplain|body Hbody]; [|eauto].
  apply plainField_inv in Hplain as (c & g & -> & _). eauto.
Qed.

Lemma scanFrom_skip a rest : scanFrom (a ++ rest) (length a) = scanFrom rest 0.
Proof. induction a as [|c a IH]; [reflexivity | exact IH]. Qed.

Lemma scanFrom_field f rest :
  wellFormedField f -> fieldEnd rest -> scanFrom (f ++ rest) 0 = f :: scanFrom rest 0.
Proof.
  intros Hf Hend. pose proof (matchAt_field f rest Hf Hend) as Hm.
  destruct (wellFormedField_cons f Hf) as (c & f' & ->).
  cbn [app] in *. cbn [scanFrom]. rewrite Hm. cbn [length Nat.pred].
  rewrite scanFrom_skip. reflexivity.
Qed.

Lemma scanFrom_comma r : scanFrom (COMMA :: r) 0 = scanFrom r 0.
Proof. reflexivity. Qed.

Lemma matchAll_fields fields :
  Forall wellFormedField fields -> matchAll (join [COMMA] fields) = fields.
Proof.
  unfold matchAll. induction 1 as [|f fs Hf Hfs IH]; [reflexivity|].
  destruct fs as [|g fs].
  - cbn [join]. rewrite <- (app_nil_r f) at 1.
    rewrite (scanFrom_field f [] Hf (or_introl eq_refl)). reflexivity.
  - change (join [COMMA] (f :: g :: fs)) with (f ++ COMMA :: join [COMMA] (g :: fs)).
    rewrite (scanFrom_field f _ Hf (or_intror (ex_intro _ _ eq_refl))).
    rewrite scanFrom_comma, IH. reflexivity.
Qed.

Lemma tokenize_fields fields :
  fields <> [] -> Forall wellFormedField fields -> tokenize (join [COMMA] fields) = fields.
Proof.
  intros Hne Hwf. unfold tokenize. rewrite (matchAll_fields fields Hwf).
  destruct fields; [congruence | reflexivity].
Qed.

(** The scan finds nothing exactly when the pattern matches at no position. *)
Lemma scanFrom_nil s k :
  scanFrom s k = [] <-> forall i, (k <= i)%nat -> matchAt (drop i s) = None.
Proof.
  revert k. induction s as [|c s IH]; intros k.
  - split; [|reflexivity]. intros _ i _. rewrite drop_nil. reflexivity.
  - destruct k as [|k]; cbn [scanFrom].
    + destruct (matchAt (c :: s)) as [[t rest]|] eqn:Hm.
      * split; [discriminate|]. intros H. specialize (H 0%nat (Nat.le_refl _)).
        cbn [drop] in H. congruence.
      * rewrite IH. split.
        -- intros H [|i] _; [exact Hm | apply H; lia].
        -- intros H i _. apply (H (S i)). lia.
    + rewrite IH. split.
      * intros H [|i] Hi; [lia | apply H; lia].
      * intros H i Hi. apply (H (S i)). lia.
Qed.

Lemma matchAll_nil line :
  matchAll line = [] <-> forall i, matchAt (drop i line) = None.
Proof.
  unfold matchAll. rewrite scanFrom_nil. split; intros H i; [apply H; lia | intros _; apply H].
Qed.

(** C2, at the line a,,b and at a line whose quote is never closed. The
    pattern passes over the empty field, so the line of three fields gives
    two tokens and the later token moves one column to the left, where the
    split on commas keeps the empty field; and the line with the unclosed
    quote is not split on its commas, since the pattern still matches
    further on, and the quote is lost. *)
Lemma tokenize_drops_empty_field :
  tokenize (str "a,,b") = [str "a"; str "b"]
  /\ specTokenize (str "a,,b") = [str "a"; []; str "b"]
  /\ tokenize (str "a,,b") <> specTokenize (str "a,,b")
  /\ tokenize (QUOTE :: str "a,b") = [str "a"; str "b"]
  /\ specTokenize (QUOTE :: str "a,b") = [QUOTE :: str "a"; str "b"].
Proof. repeat split; try (vm_compute; reflexivity). vm_compute. discriminate. Qed.

(** X30. On a line of well-formed fields joined by commas (non-empty
    fields free of quote, comma and white space, or quoted ones whose commas
    are content) the tokens are the fields, one for one and in order. *)
Theorem tokenize_reads_well_formed_fields fields :
  fields <> [] ->
  Forall wellFormedField fields ->
  tokenize (join [COMMA] fields) = fields.
Proof. apply tokenize_fields. Qed.

Lemma tokenize_reads_well_formed_fields_witness :
  [str "Kim"; QUOTE :: str "a,b" ++ [QUOTE]] <> []
  /\ Forall wellFormedField [str "Kim"; QUOTE :: str "a,b" ++ [QUOTE]]
  /\ tokenize (join [COMMA] [str "Kim"; QUOTE :: str "a,b" ++ [QUOTE]])
     = [str "Kim"; QUOTE :: str "a,b" ++ [QUOTE]].
Proof.
  assert (H1 : [str "Kim"; QUOTE :: str "a,b" ++ [QUOTE]] <> []) by discriminate.
  assert (H2 : Forall wellFormedField [str "Kim"; QUOTE :: str "a,b" ++ [QUOTE]]).
  { constructor; [apply wf_plain; reflexivity|].
    constructor; [apply wf_quoted; reflexivity | constructor]. }
  split; [exact H1|]. split; [exact H2|].
  apply (tokenize_reads_well_formed_fields _ H1 H2).
Defined.

(** ** [clean] on the cells of an exported row *)

Lemma forallb_isPlain_rev f : forallb isPlain f = true -> forallb isPlain (rev f) = true.
Proof.
  rewrite !forallb_forall. intros H c Hc. apply H, in_rev, Hc.
Qed.

Lemma trimStart_plain f : forallb isPlain f = true -> trimStart f = f.
Proof.
  destruct f as [|c f]; [reflexivity|]. cbn [forallb trimStart].
  intros H. apply andb_true_iff in H as [Hc _].
  destruct (isPlain_inv c Hc) as (_ & _ & ->). reflexivity.
Qed.

Lemma trim_plain f : forallb isPlain f = true -> trim f = f.
Proof.
  intros H. unfold trim, trimEnd.
  rewrite (trimStart_plain f H), (trimStart_plain (rev f) (forallb_isPlain_rev f H)).
  apply rev_involutive.
Qed.

Lemma stripTrailingQuote_plain f : forallb isPlain f = true -> stripTrailingQuote f = f.
Proof.
  induction f as [|c f IH]; [reflexivity|]. cbn [forallb].
  intros H. apply andb_true_iff in H as [Hc Hf].
  destruct f as [|d f].
  - cbn. destruct (isPlain_inv c Hc) as (-> & _). reflexivity.
  - change (stripTrailingQuote (c :: d :: f)) with (c :: stripTrailingQuote (d :: f)).
    rewrite (IH Hf). reflexivity.
Qed.

Lemma collapseQuotes_plain f : forallb isPlain f = true -> collapseQuotes f = f.
Proof.
  induction f as [|c f IH]; [reflexivity|]. cbn [forallb].
  intros H. apply andb_true_iff in H as [Hc Hf].
  destruct f as [|d f]; [reflexivity|].
  change (collapseQuotes (c :: d :: f))
    with (if (c =? QUOTE) && (d =? QUOTE) then QUOTE :: collapseQuotes f
          else c :: collapseQuotes (d :: f)).
  destruct (isPlain_inv c Hc) as (-> & _). cbn [andb]. rewrite (IH Hf). reflexivity.
Qed.

Lemma clean_plain f : plainField f = true -> clean (Some f) = f.
Proof.
  intros H. destruct (plainField_inv f H) as (c & g & -> & Hc & Hg).
  assert (Hall : forallb isPlain (c :: g) = true) by (cbn; rewrite Hc, Hg; reflexivity).
  unfold clean, orEmpty, orElse, stripQuotes. cbn [stripLeadingQuote].
  destruct (isPlain_inv c Hc) as (-> & _).
  rewrite (stripTrailingQuote_plain _ Hall), (collapseQuotes_plain _ Hall).
  apply trim_plain, Hall.
Qed.

Lemma stripTrailingQuote_closing body : stripTrailingQuote (body ++ [QUOTE]) = body.
Proof.
  induction body as [|c b IH]; [reflexivity|].
  destruct b as [|d b]; [reflexivity|].
  change (stripTrailingQuote ((c :: d :: b) ++ [QUOTE]))
    with (c :: stripTrailingQuote ((d :: b) ++ [QUOTE])).
  rewrite IH. reflexivity.
Qed.

Lemma collapseQuotes_doubled r : collapseQuotes (doubleQuotes r) = r.
Proof.
  induction r as [|c r IH]; [reflexivity|]. cbn [doubleQuotes].
  destruct (N.eqb_spec c QUOTE) as [->|Hc].
  - cbn [collapseQuotes]. change (QUOTE =? QUOTE) with true. cbn [andb].
    rewrite IH. reflexivity.
  - destruct (doubleQuotes r) as [|d x] eqn:Hx.
    + cbn in IH. subst r. reflexivity.
    + change (collapseQuotes (c :: d :: x))
        with (if (c =? QUOTE) && (d =? QUOTE) then QUOTE :: collapseQuotes x
              else c :: collapseQuotes (d :: x)).
      rewrite (proj2 (N.eqb_neq c QUOTE) Hc). cbn [andb]. rewrite IH. reflexivity.
Qed.

Lemma clean_quoted r :
  trim r = r -> clean (Some (QUOTE :: doubleQuotes r ++ [QUOTE])) = r.
Proof.
  intros Htrim. unfold clean, orEmpty, orElse, stripQuotes. cbn [stripLeadingQuote].
  change (QUOTE =? QUOTE) with true. cbn match.
  rewrite stripTrailingQuote_closing, collapseQuotes_doubled. exact Htrim.
Qed.

Lemma commaNext_doubled r : commaNext (doubleQuotes r) = commaNext r.
Proof.
  induction r as [|c r IH]; [reflexivity|]. cbn [doubleQuotes commaNext].
  destruct (N.eqb_spec c QUOTE) as [->|Hc]; [reflexivity|].
  cbn [commaNext]. rewrite IH. reflexivity.
Qed.

Lemma quotedBodyOk_doubled r : quotedBodyOk r = true -> quotedBodyOk (doubleQuotes r) = true.
Proof.
  induction r as [|c r IH]; [reflexivity|]. cbn [quotedBodyOk doubleQuotes].
  intros H. apply andb_true_iff in H as [H Hr]. apply andb_true_iff in H as [Hlt Hq].
  destruct (N.eqb_spec c QUOTE) as [->|Hc].
  - cbn [quotedBodyOk]. rewrite commaNext_doubled, (IH Hr).
    cbn [andb] in Hq. change (QUOTE =? QUOTE) with true in *. cbn [andb] in *.
    rewrite Hq. reflexivity.
  - cbn [quotedBodyOk]. rewrite Hlt, (IH Hr), (proj2 (N.eqb_neq c QUOTE) Hc). reflexivity.
Qed.

(** ** Printing a number and reading it back *)

Lemma digitChar_value d : d < 10 -> digitValue 10 (digitChar d) = Some d.
Proof. intros H. digit_cases d H; reflexivity. Qed.

Lemma digitChar_plain d : d < 10 -> isPlain (digitChar d) = true.
Proof. intros H. digit_cases d H; reflexivity. Qed.

Lemma digitChar_not_x d :
  d < 10 -> (digitChar d =? 120) || (digitChar d =? 88) = false.
Proof. intros H. digit_cases d H; reflexivity. Qed.

Lemma digitChar_not_sign d :
  d < 10 -> (digitChar d =? 45) = false /\ (digitChar d =? 43) = false.
Proof. intros H. digit_cases d H; split; reflexivity. Qed.

Lemma decimalOf_digits fuel n acc :
  Forall (fun d => d < 10) acc -> Forall (fun d => d < 10) (decimalOf fuel n acc).
Proof.
  revert n acc. induction fuel as [|f IH]; intros n acc Hacc; cbn [decimalOf]; [exact Hacc|].
  assert (Forall (fun d => d < 10) (n mod 10 :: acc))
    by (constructor; [apply N.mod_lt; discriminate | exact Hacc]).
  destruct (n / 10 =? 0); [assumption | apply IH; assumption].
Qed.

Lemma decimalOf_cons fuel n acc :
  acc <> [] -> decimalOf fuel n acc <> [].
Proof.
  revert n acc. induction fuel as [|f IH]; intros n acc Hacc; cbn [decimalOf]; [exact Hacc|].
  destruct (n / 10 =? 0); [discriminate | apply IH; discriminate].
Qed.

Lemma decimalOf_value fuel n acc :
  n < 2 ^ N.of_nat fuel ->
  fold_left (fun a d => a * 10 + d) (decimalOf fuel n acc) 0
  = fold_left (fun a d => a * 10 + d) acc n.
Proof.
  revert n acc. induction fuel as [|f IH]; intros n acc Hn; cbn [decimalOf].
  - cbn in Hn. assert (n = 0) as -> by lia. reflexivity.
  - rewrite Nat2N.inj_succ, N.pow_succ_r' in Hn.
    pose proof (N.div_mod n 10 ltac:(discriminate)) as Hdm.
    destruct (N.eqb_spec (n / 10) 0) as [Hz|Hz].
    + cbn [fold_left]. f_equal. lia.
    + rewrite IH.
      * cbn [fold_left]. f_equal. lia.
      * apply N.Div0.div_lt_upper_bound. lia.
Qed.

Lemma decimalText_spec n :
  exists ds, decimalText n = map digitChar ds /\ ds <> []
             /\ Forall (fun d => d < 10) ds /\ mathInt 10 ds = n.
Proof.
  unfold decimalText.
  exists (decimalOf (S (N.to_nat (N.size n))) n []).
  split; [reflexivity|]. split; [|split].
  - cbn [decimalOf]. destruct (n / 10 =? 0); [discriminate | apply decimalOf_cons; discriminate].
  - apply decimalOf_digits. constructor.
  - unfold mathInt. rewrite decimalOf_value; [reflexivity|].
    rewrite Nat2N.inj_succ, N2Nat.id, N.pow_succ_r'.
    pose proof (N.size_gt n). lia.
Qed.

Lemma digitRun_digits ds :
  Forall (fun d => d < 10) ds -> digitRun 10 (map digitChar ds) = ds.
Proof.
  induction 1 as [|d ds Hd Hds IH]; [reflexivity|].
  cbn [map digitRun]. rewrite (digitChar_value d Hd), IH. reflexivity.
Qed.

Lemma digits_plain ds :
  Forall (fun d => d < 10) ds -> forallb isPlain (map digitChar ds) = true.
Proof.
  induction 1 as [|d ds Hd Hds IH]; [reflexivity|].
  cbn [map forallb]. rewrite (digitChar_plain d Hd), IH. reflexivity.
Qed.

Lemma takeRadix_digits ds :
  Forall (fun d => d < 10) ds ->
  takeRadix (map digitChar ds) = (10, map digitChar ds).
Proof.
  intros Hds. destruct ds as [|d [|e ds]]; [reflexivity | reflexivity|].
  cbn [map takeRadix].
  rewrite (digitChar_not_x e) by (inversion Hds as [|? ? _ Hds']; exact (Forall_inv Hds')).
  rewrite andb_false_r. reflexivity.
Qed.

Lemma takeSign_digits d ds :
  d < 10 -> takeSign (digitChar d :: ds) = (false, digitChar d :: ds).
Proof.
  intros Hd. unfold takeSign. destruct (digitChar_not_sign d Hd) as [-> ->]. reflexivity.
Qed.

(** [parseInt] on a run of decimal digits, with or without a minus sign. *)
Lemma parseInt_digits (negative : bool) ds :
  ds <> [] -> Forall (fun d => d < 10) ds ->
  parseInt ((if negative then [45] else []) ++ map digitChar ds)
  = Some (if negative then (- Z.of_N (mathInt 10 ds))%Z else Z.of_N (mathInt 10 ds)).
Proof.
  intros Hne Hds. unfold parseInt.
  assert (Hsign : takeSign (trimStart ((if negative then [45] else []) ++ map digitChar ds))
                  = (negative, map digitChar ds)).
  { destruct negative; [reflexivity|]. cbn [app].
    rewrite (trimStart_plain _ (digits_plain ds Hds)).
    destruct ds as [|d ds]; [congruence|]. cbn [map].
    apply takeSign_digits, (Forall_inv Hds). }
  rewrite Hsign, (takeRadix_digits ds Hds), (digitRun_digits ds Hds).
  destruct ds; [congruence | reflexivity].
Qed.

Lemma parseInt_numberToString z : parseInt (numberToString z) = Some z.
Proof.
  destruct z as [|p|p]; cbn [numberToString].
  - reflexivity.
  - destruct (decimalText_spec (Npos p)) as (ds & -> & Hne & Hds & Hval).
    pose proof (parseInt_digits false ds Hne Hds) as H. cbn [app] in H.
    rewrite H, Hval. reflexivity.
  - destruct (decimalText_spec (Npos p)) as (ds & -> & Hne & Hds & Hval).
    pose proof (parseInt_digits true ds Hne Hds) as H. cbn [app] in H.
    rewrite H, Hval. reflexivity.
Qed.

Lemma numberToString_plain z : plainField (numberToString z) = true.
Proof.
  assert (Hn : forall n, plainField (decimalText n) = true
                         /\ forallb isPlain (decimalText n) = true).
  { intros n. destruct (decimalText_spec n) as (ds & -> & Hne & Hds & _).
    pose proof (digits_plain ds Hds) as Hp. split; [|exact Hp].
    destruct ds; [congruence | exact Hp]. }
  destruct z as [|p|p]; cbn [numberToString]; apply Hn.
Qed.

Lemma orOne_parse_print z : z <> 0%Z -> orOne (parseInt (clean (Some (numberToString z)))) = z.
Proof.
  intros Hz. rewrite (clean_plain _ (numberToString_plain z)), parseInt_numberToString.
  apply orOne_kept, Hz.
Qed.

Example parseInt_samples :
  map parseInt [str "42"; str "  -12abc"; str "0x1f"; str "-0X10"; str "1e3";
                str "12.5"; str ""; str "+"; str "0x"; str "abc"; str "007"]
  = [Some 42; Some (-12); Some 31; Some (-16); Some 1; Some 12; None; None; None;
     None; Some 7]%Z.
Proof. vm_compute. reflexivity. Qed.

(** ** One exported row, imported *)

Lemma roundTrippable_inv s :
  roundTrippable s = true ->
  (grade s <> 0 /\ schoolClass s <> 0 /\ number s <> 0)%Z
  /\ plainField (name s) = true /\ plainField (phone s) = true
  /\ quotedBodyOk (remarks s) = true /\ trim (remarks s) = remarks s.
Proof.
  unfold roundTrippable.
  rewrite !andb_true_iff, !negb_true_iff, !Z.eqb_neq, bool_decide_eq_true. tauto.
Qed.

Lemma groupText_plain g : plainField (groupText g) = true.
Proof. destruct g; reflexivity. Qed.

Lemma pickGroup_groupText g : pickGroup (toUpperCase (clean (Some (groupText g)))) = g.
Proof. destruct g; vm_compute; reflexivity. Qed.

Lemma quoteRemarks_rfc s : quoteRemarks s = rfcQuote (remarks s).
Proof. unfold quoteRemarks, rfcQuote. rewrite orElse_nil. reflexivity. Qed.

Lemma rowCells_wellFormed s :
  roundTrippable s = true -> Forall wellFormedField (rowCells s).
Proof.
  intros H. apply roundTrippable_inv in H as (_ & Hname & Hphone & Hrem & _).
  unfold rowCells.
  repeat (apply Forall_cons_2; [apply wf_plain, numberToString_plain|]).
  apply Forall_cons_2; [apply wf_plain, groupText_plain|].
  apply Forall_cons_2; [apply wf_plain, Hname|].
  apply Forall_cons_2; [apply wf_plain, Hphone|].
  apply Forall_cons_2; [|constructor].
  rewrite quoteRemarks_rfc. apply wf_quoted, quotedBodyOk_doubled, Hrem.
Qed.

Lemma importRow_exported env k s :
  roundTrippable s = true ->
  exists s', importRow env k (join [COMMA] (rowCells s)) = Some s'
             /\ fieldValues s' = fieldValues s.
Proof.
  intros H. pose proof (rowCells_wellFormed s H) as Hwf.
  apply roundTrippable_inv in H as ((Hg & Hc & Hn) & Hname & Hphone & Hrem & Htrim).
  unfold importRow. rewrite (tokenize_fields (rowCells s)) by (discriminate || exact Hwf).
  change (rowCells s !! 0%nat) with (Some (numberToString (grade s))).
  change (rowCells s !! 1%nat) with (Some (numberToString (schoolClass s))).
  change (rowCells s !! 2%nat) with (Some (numberToString (number s))).
  change (rowCells s !! 3%nat) with (Some (groupText (group s))).
  change (rowCells s !! 4%nat) with (Some (name s)).
  change (rowCells s !! 5%nat) with (Some (phone s)).
  change (rowCells s !! 6%nat) with (Some (quoteRemarks s)).
  rewrite !orOne_parse_print by assumption.
  rewrite pickGroup_groupText, (clean_plain _ Hname), (clean_plain _ Hphone).
  rewrite quoteRemarks_rfc. unfold rfcQuote. rewrite (clean_quoted _ Htrim), !orElse_nil.
  destruct (name s) as [|c nm] eqn:Hnm; [discriminate|].
  eexists. split; [reflexivity|]. unfold fieldValues. cbn. rewrite Hnm. reflexivity.
Qed.

Lemma importLoop_exported env k l :
  Forall (fun s => roundTrippable s = true) l ->
  map fieldValues (importLoop env k (map (fun s => join [COMMA] (rowCells s)) l))
  = map fieldValues l.
Proof.
  intros H. revert k. induction H as [|s l Hs Hl IH]; intros k; [reflexivity|].
  cbn [map importLoop].
  destruct (importRow_exported env k s Hs) as (s' & -> & Hf).
  cbn [map]. rewrite Hf, IH. reflexivity.
Qed.

(** ** The lines of an exported file *)

Lemma splitLines_cons_line l rest :
  noLineBreak l = true -> splitLines (l ++ LF :: rest) = l :: splitLines rest.
Proof.
  induction l as [|c l IH]; cbn [app].
  - intros _. destruct rest; reflexivity.
  - unfold noLineBreak. cbn [forallb]. intros H. apply andb_true_iff in H as [Hc Hl].
    specialize (IH Hl).
    apply negb_true_iff in Hc. unfold isLineTerminator in Hc.
    rewrite !orb_false_iff in Hc. destruct Hc as [[[Hlf Hcr] _] _].
    destruct (l ++ LF :: rest) as [|d x] eqn:Hx; [destruct l; discriminate|].
    change (splitLines (c :: d :: x))
      with (if (c =? CR) && (d =? LF) then [] :: splitLines x
            else if c =? LF then [] :: splitLines (d :: x)
            else match splitLines (d :: x) with
                 | piece :: pieces => (c :: piece) :: pieces
                 | [] => [[c]]
                 end).
    change (c =? CR) with (c =? 13). change (c =? LF) with (c =? 10).
    rewrite Hcr, Hlf, IH. reflexivity.
Qed.

Lemma splitLines_one_line l : noLineBreak l = true -> splitLines l = [l].
Proof.
  induction l as [|c l IH]; [reflexivity|].
  unfold noLineBreak. cbn [forallb]. intros H. apply andb_true_iff in H as [Hc Hl].
  specialize (IH Hl).
  apply negb_true_iff in Hc. unfold isLineTerminator in Hc.
  rewrite !orb_false_iff in Hc. destruct Hc as [[[Hlf Hcr] _] _].
  destruct l as [|d x].
  - cbn [splitLines]. change (c =? LF) with (c =? 10). rewrite Hlf. reflexivity.
  - change (splitLines (c :: d :: x))
      with (if (c =? CR) && (d =? LF) then [] :: splitLines x
            else if c =? LF then [] :: splitLines (d :: x)
            else match splitLines (d :: x) with
                 | piece :: pieces => (c :: piece) :: pieces
                 | [] => [[c]]
                 end).
    change (c =? CR) with (c =? 13). change (c =? LF) with (c =? 10).
    rewrite Hcr, Hlf, IH. reflexivity.
Qed.

Lemma splitLines_join lines :
  lines <> [] -> Forall (fun l => noLineBreak l = true) lines ->
  splitLines (join [LF] lines) = lines.
Proof.
  intros Hne H. induction H as [|l ls Hl Hls IH]; [congruence|].
  destruct ls as [|m ls].
  - cbn [join]. apply splitLines_one_line, Hl.
  - change (join [LF] (l :: m :: ls)) with (l ++ LF :: join [LF] (m :: ls)).
    rewrite (splitLines_cons_line _ _ Hl), IH by discriminate. reflexivity.
Qed.

Lemma isPlain_not_terminator c : isPlain c = true -> negb (isLineTerminator c) = true.
Proof.
  intros H. destruct (isPlain_inv c H) as (_ & _ & Hs). unfold isSpace in Hs.
  apply orb_false_iff in Hs as [_ ->]. reflexivity.
Qed.

Lemma quotedBodyOk_noLineBreak body : quotedBodyOk body = true -> noLineBreak body = true.
Proof.
  unfold noLineBreak. induction body as [|c b IH]; [reflexivity|].
  cbn [quotedBodyOk forallb]. rewrite !andb_true_iff. intros [[Hc _] Hb]. auto.
Qed.

Lemma wellFormedField_noLineBreak f : wellFormedField f -> noLineBreak f = true.
Proof.
  intros [g Hplain|body Hbody].
  - apply plainField_inv in Hplain as (c & g' & -> & Hc & Hg).
    unfold noLineBreak. cbn [forallb]. rewrite (isPlain_not_terminator c Hc). cbn [andb].
    apply forallb_forall. intros d Hd.
    apply isPlain_not_terminator. rewrite forallb_forall in Hg. auto.
  - unfold noLineBreak. cbn [forallb]. change (isLineTerminator QUOTE) with false.
    cbn [negb andb]. rewrite forallb_app. fold (noLineBreak body).
    rewrite (quotedBodyOk_noLineBreak body Hbody). reflexivity.
Qed.

Lemma noLineBreak_join cells :
  Forall (fun f => noLineBreak f = true) cells -> noLineBreak (join [COMMA] cells) = true.
Proof.
  induction 1 as [|f fs Hf Hfs IH]; [reflexivity|].
  destruct fs as [|g fs]; [exact Hf|].
  change (join [COMMA] (f :: g :: fs)) with (f ++ COMMA :: join [COMMA] (g :: fs)).
  unfold noLineBreak in *. rewrite forallb_app. cbn [forallb].
  rewrite Hf, IH. reflexivity.
Qed.

Lemma row_noLineBreak s :
  roundTrippable s = true -> noLineBreak (join [COMMA] (rowCells s)) = true.
Proof.
  intros H. apply noLineBreak_join.
  eapply Forall_impl; [exact (rowCells_wellFormed s H)|].
  intros f. apply wellFormedField_noLineBreak.
Qed.

Lemma trimStart_keeps a c b :
  isSpace c = false -> exists a', trimStart (a ++ c :: b) = a' ++ c :: b.
Proof.
  intros Hc. induction a as [|x a IH]; cbn [app trimStart].
  - exists []. rewrite Hc. reflexivity.
  - destruct (isSpace x); [exact IH | exists (x :: a); reflexivity].
Qed.

Lemma trim_nonblank a c b : isSpace c = false -> trim (a ++ c :: b) <> [].
Proof.
  intros Hc. unfold trim, trimEnd.
  destruct (trimStart_keeps a c b Hc) as [a' ->].
  rewrite rev_app_distr. cbn [rev]. rewrite <- app_assoc. cbn [app].
  destruct (trimStart_keeps (rev b) c (rev a') Hc) as [b' ->].
  intros H. apply (f_equal (@rev N)) in H. rewrite rev_involutive in H.
  destruct b'; discriminate.
Qed.

Lemma row_nonblank s : trim (join [COMMA] (rowCells s)) <> [].
Proof.
  destruct (plainField_inv _ (numberToString_plain (grade s))) as (c & f & Hf & Hc & _).
  change (join [COMMA] (rowCells s))
    with (numberToString (grade s) ++ COMMA
            :: join [COMMA] (tail (rowCells s))).
  rewrite Hf. apply (trim_nonblank [] c).
  destruct (isPlain_inv c Hc) as (_ & _ & Hs). exact Hs.
Qed.

Lemma filter_all {T} (P : T -> Prop) `{forall x, Decision (P x)} (l : list T) :
  Forall P l -> filter P l = l.
Proof.
  induction 1 as [|x l Hx Hl IH]; [reflexivity|].
  rewrite filter_cons_True by exact Hx. rewrite IH. reflexivity.
Qed.

Lemma dataLines_exported l :
  Forall (fun s => roundTrippable s = true) l ->
  dataLines (readAsText (blobText l)) = map (fun s => join [COMMA] (rowCells s)) l.
Proof.
  intros Hl. unfold blobText, readAsText. change (BOM =? BOM) with true. cbn match.
  unfold dataLines, csvContent. rewrite splitLines_join.
  - cbn [drop]. apply filter_all. apply Forall_map, Forall_forall.
    intros s _. apply row_nonblank.
  - discriminate.
  - constructor; [reflexivity|]. apply Forall_map.
    eapply Forall_impl; [exact Hl|]. intros s. apply row_noLineBreak.
Qed.

(** ** Export, then import *)

(** C1, at the roster that holds Park alone, whose phone is empty. The
    export writes the empty phone as an empty field; the import pattern
    passes over it, so the quoted remarks are read as the phone and the
    remarks come back empty: the imported field values are not those of the
    exported record. *)
Lemma round_trip_loses_empty_phone :
  exists text,
    snd (exportToCsv (rosterOf [park])) = Some text
    /\ map fieldValues (importLoop clock0 0 (dataLines (readAsText text)))
       = [(3, 1, 4, GroupC, str "Park", str "Good", [])%Z]
    /\ ~ (map fieldValues (importLoop clock0 0 (dataLines (readAsText text)))
          ≡ₚ map fieldValues (listStudents (rosterOf [park]))).
Proof.
  eexists. split; [vm_compute; reflexivity|].
  split; [vm_compute; reflexivity|].
  intros H. apply Permutation_length_1 in H. vm_compute in H. discriminate.
Qed.

(** X29. For a non-empty view of records whose numbers are safe integers
    other than zero, whose name and phone are non-empty and free of quote,
    comma and white space, and whose remarks have no line terminator, no
    quote followed by optional white space and a comma, and no white space
    at either end, the records imported from the exported text carry the
    same seven field values, as a multiset. *)
Theorem export_import_round_trip env k app :
  listStudents app <> [] ->
  Forall (fun s => roundTrippable s = true) (listStudents app) ->
  exists text,
    snd (exportToCsv app) = Some text
    /\ map fieldValues (importLoop env k (dataLines (readAsText text)))
       ≡ₚ map fieldValues (listStudents app).
Proof.
  intros Hne Hall.
  exists (blobText (arraySort compareStudents (listStudents app))).
  split; [apply exportToCsv_text, Hne|].
  assert (Hsorted : Forall (fun s => roundTrippable s = true)
                      (arraySort compareStudents (listStudents app))).
  { eapply Permutation_Forall; [|exact Hall]. symmetry. apply arraySort_perm. }
  rewrite (dataLines_exported _ Hsorted), (importLoop_exported _ _ _ Hsorted).
  apply Permutation_map, arraySort_perm.
Qed.

Lemma export_import_round_trip_witness :
  listStudents (rosterOf [kim; choi]) <> []
  /\ Forall (fun s => roundTrippable s = true) (listStudents (rosterOf [kim; choi]))
  /\ exists text,
       snd (exportToCsv (rosterOf [kim; choi])) = Some text
       /\ map fieldValues (importLoop clock0 0 (dataLines (readAsText text)))
          ≡ₚ map fieldValues (listStudents (rosterOf [kim; choi])).
Proof.
  assert (H1 : listStudents (rosterOf [kim; choi]) <> []) by (vm_compute; discriminate).
  assert (H2 : Forall (fun s => roundTrippable s = true) (listStudents (rosterOf [kim; choi]))).
  { change (listStudents (rosterOf [kim; choi])) with [kim; choi].
    repeat constructor. }
  split; [exact H1|]. split; [exact H2|].
  exact (export_import_round_trip clock0 0 (rosterOf [kim; choi]) H1 H2).
Defined.

(** ** Quoting in the exported rows *)

(** C3, as the claim states it, fails: a name that holds a comma is written
    as it is, not between quotes, and the row has one comma more. *)
Lemma name_with_comma_not_quoted :
  needsQuoting (name kimLee) = true
  /\ rowCells kimLee !! 4%nat = Some (name kimLee)
  /\ name kimLee <> rfcQuote (name kimLee)
  /\ join [COMMA] (rowCells kimLee) = str "1,1,2,A,Kim,Lee,010-4444," ++ [QUOTE; QUOTE].
Proof. repeat split; try (vm_compute; reflexivity). vm_compute. discriminate. Qed.

(** C3, amended. In an exported row only the remarks are quoted: the last
    cell is always the remarks between double quotes with each inner double
    quote doubled, and the other cells, name and phone among them, are the
    plain text of the value whatever it holds. The remarks of the example
    export to their quoted form, and the remarks of a row that survives the
    round trip, the example among them, are read back as they were. *)
Theorem export_quotes_remarks_only env k s :
  rowCells s
  = [ numberToString (grade s); numberToString (schoolClass s);
      numberToString (number s); groupText (group s); name s; phone s;
      rfcQuote (remarks s) ]
  /\ rfcQuote heSaid
     = QUOTE :: str "He said, " ++ [QUOTE; QUOTE] ++ str "hi" ++ [QUOTE; QUOTE; QUOTE]
  /\ (roundTrippable s = true ->
      exists s', importRow env k (join [COMMA] (rowCells s)) = Some s'
                 /\ remarks s' = remarks s).
Proof.
  split; [unfold rowCells; rewrite quoteRemarks_rfc; reflexivity|].
  split; [vm_compute; reflexivity|].
  intros H. destruct (importRow_exported env k s H) as (s' & Hs' & Hf).
  exists s'. split; [exact Hs'|]. unfold fieldValues in Hf. congruence.
Qed.

Lemma export_quotes_remarks_only_witness :
  roundTrippable choi = true
  /\ rowCells choi !! 6%nat
     = Some (QUOTE :: str "He said, " ++ [QUOTE; QUOTE] ++ str "hi" ++ [QUOTE; QUOTE; QUOTE])
  /\ exists s', importRow clock0 0 (join [COMMA] (rowCells choi)) = Some s'
                /\ remarks s' = heSaid.
Proof.
  destruct (export_quotes_remarks_only clock0 0 choi) as (Hcells & Hquoted & Hback).
  split; [reflexivity|]. split.
  - rewrite Hcells. cbn [lookup list_lookup remarks choi]. rewrite Hquoted. reflexivity.
  - exact (Hback eq_refl).
Defined.

(** * Further properties of the component *)

(** ** The roster operations *)

Lemma listStudents_view app :
  listStudents app
  = match activeTab app with
    | ALL => roster app
    | Tab g => filter (fun s => group s = g) (roster app)
    end.
Proof.
  unfold listStudents, filteredStudents, roster.
  destruct (activeTab app) as [|g]; [reflexivity|].
  cbn [heap]. unfold deref at 1. rewrite lookup_insert_eq. reflexivity.
Qed.

Lemma roster_setStudents app next : roster (setStudents app next) = next.
Proof. unfold roster, setStudents, deref. cbn. rewrite lookup_insert_eq. reflexivity. Qed.

Lemma roster_addStudent env app input :
  roster (addStudent env app input) = roster app ++ [newStudent env (produced app) input].
Proof.
  unfold roster at 1. unfold addStudent, deref. cbn [heap students].
  rewrite lookup_insert_eq. reflexivity.
Qed.

(** X1. A new student goes to the end of the roster and every earlier
    record stays where it was; the current view gains the record at its end
    exactly when the view is ALL or the tab of the record's group. *)
Theorem addStudent_appends env app input :
  let s := newStudent env (produced app) input in
  roster (addStudent env app input) = roster app ++ [s]
  /\ listStudents (addStudent env app input)
     = listStudents app ++ (if inTab (activeTab app) s then [s] else [])
  /\ totalCount (addStudent env app input) = S (totalCount app).
Proof.
  intros s. split; [apply roster_addStudent|]. split.
  - rewrite !listStudents_view, roster_addStudent. cbn [activeTab addStudent]. fold s.
    destruct (activeTab app) as [|g]; [reflexivity|].
    rewrite filter_app. f_equal. cbn [inTab].
    rewrite filter_cons, filter_nil.
    destruct (decide (group s = g)) as [Hg|Hg].
    + rewrite (bool_decide_eq_true_2 _ Hg). reflexivity.
    + rewrite (bool_decide_eq_false_2 _ Hg). reflexivity.
  - unfold totalCount. rewrite roster_addStudent, length_app. cbn. lia.
Qed.

Lemma updated_ids (target : jsstring) input l :
  map id (map (fun s => if bool_decide (id s = target) then spreadInput s input else s) l)
  = map id l
  /\ map createdAt
       (map (fun s => if bool_decide (id s = target) then spreadInput s input else s) l)
     = map createdAt l.
Proof.
  rewrite !map_map. split; apply map_ext; intros s; destruct (bool_decide _); reflexivity.
Qed.

(** X2. An update keeps the number of records, their order, and the [id]
    and [createdAt] of each one; every record with the given id then holds
    exactly the seven fields of the input, and every other record is as it
    was. *)
Theorem updateStudent_keeps_identity app target input :
  let after := roster (updateStudent app target input) in
  length after = length (roster app)
  /\ map id after = map id (roster app)
  /\ map createdAt after = map createdAt (roster app)
  /\ (forall i s, roster app !! i = Some s ->
        after !! i = Some (if bool_decide (id s = target) then spreadInput s input else s))
  /\ (forall s, In s after -> id s = target ->
        fieldValues s
        = (StudentInput.grade input, StudentInput.schoolClass input,
           StudentInput.number input, StudentInput.group input,
           StudentInput.name input, StudentInput.phone input,
           StudentInput.remarks input)).
Proof.
  intros after. unfold after, updateStudent. rewrite roster_setStudents.
  destruct (updated_ids target input (roster app)) as [Hid Hat].
  split; [apply length_map|]. split; [exact Hid|]. split; [exact Hat|]. split.
  - intros i s Hi.
    change (map ?f ?l) with (f <$> l). rewrite list_lookup_fmap, Hi. reflexivity.
  - intros s Hin Hs. apply in_map_iff in Hin as (s0 & <- & _).
    destruct (decide (id s0 = target)) as [H0|H0].
    + rewrite (bool_decide_eq_true_2 _ H0). reflexivity.
    + rewrite (bool_decide_eq_false_2 _ H0) in Hs. contradiction.
Qed.

(** X3. An update with an id that no record has changes nothing in the
    roster. *)
Theorem updateStudent_absent_id app target input :
  ~ In target (map id (roster app)) ->
  roster (updateStudent app target input) = roster app
  /\ listStudents (updateStudent app target input) = listStudents app.
Proof.
  intros Habs.
  assert (Hr : roster (updateStudent app target input) = roster app).
  { unfold updateStudent. rewrite roster_setStudents.
    rewrite <- (map_id (roster app)) at 2. apply map_ext_in. intros s Hs.
    rewrite bool_decide_eq_false_2; [reflexivity|].
    intros <-. apply Habs, in_map, Hs. }
  split; [exact Hr|]. rewrite !listStudents_view, Hr. reflexivity.
Qed.

Lemma updateStudent_absent_id_witness :
  ~ In (str "id-9") (map id (roster rosterAll))
  /\ roster (updateStudent rosterAll (str "id-9") parkInput) = [kim; lee].
Proof.
  assert (H : ~ In (str "id-9") (map id (roster rosterAll))).
  { vm_compute. intros [H|[H|[]]]; discriminate. }
  split; [exact H|].
  exact (proj1 (updateStudent_absent_id rosterAll (str "id-9") parkInput H)).
Defined.

(** X4. Of two updates of the same id the second one wins entirely: the
    roster is the one that the second update alone gives. *)
Theorem updateStudent_last_wins app target input1 input2 :
  roster (updateStudent (updateStudent app target input1) target input2)
  = roster (updateStudent app target input2).
Proof.
  unfold updateStudent. rewrite !roster_setStudents, map_map.
  apply map_ext. intros s.
  destruct (decide (id s = target)) as [Hs|Hs].
  - rewrite (bool_decide_eq_true_2 _ Hs). cbn [id spreadInput].
    rewrite (bool_decide_eq_true_2 _ Hs). reflexivity.
  - rewrite !(bool_decide_eq_false_2 _ Hs). reflexivity.
Qed.

(** X5. A delete that is not confirmed changes nothing. A confirmed delete
    leaves no record with the given id, keeps every other record, and keeps
    the order of what is left. *)
Theorem deleteStudent_removes_id app target :
  deleteStudent false app target = app
  /\ ~ In target (map id (roster (deleteStudent true app target)))
  /\ (forall s, s ∈ roster app -> id s <> target ->
        s ∈ roster (deleteStudent true app target))
  /\ roster (deleteStudent true app target) `sublist_of` roster app.
Proof.
  split; [reflexivity|]. unfold deleteStudent. rewrite roster_setStudents.
  split; [|split].
  - intros Hin. apply in_map_iff in Hin as (s & Hs & Hin).
    apply list_elem_of_In, list_elem_of_filter in Hin as [Hne _]. contradiction.
  - intros s Hs Hne. apply list_elem_of_filter. split; assumption.
  - apply sublist_filter.
Qed.

(** X6. A confirmed delete with an id that no record has leaves the roster
    as it was. *)
Theorem deleteStudent_absent_id app target :
  ~ In target (map id (roster app)) ->
  roster (deleteStudent true app target) = roster app.
Proof.
  intros Habs. unfold deleteStudent. rewrite roster_setStudents.
  apply filter_all, Forall_forall. intros s Hs <-.
  apply Habs, in_map, list_elem_of_In, Hs.
Qed.

Lemma deleteStudent_absent_id_witness :
  ~ In (str "id-9") (map id (roster rosterAll))
  /\ roster (deleteStudent true rosterAll (str "id-9")) = [kim; lee].
Proof.
  assert (H : ~ In (str "id-9") (map id (roster rosterAll))).
  { vm_compute. intros [H|[H|[]]]; discriminate. }
  split; [exact H|].
  exact (deleteStudent_absent_id rosterAll (str "id-9") H).
Defined.

(** X7. Adding a student and then deleting the id it was given restores
    the roster, provided no earlier record has that id. *)
Theorem add_then_delete_restores env app input :
  ~ In (randomUUID env (produced app)) (map id (roster app)) ->
  roster (deleteStudent true (addStudent env app input) (randomUUID env (produced app)))
  = roster app.
Proof.
  intros Hfresh. unfold deleteStudent. rewrite roster_setStudents, roster_addStudent.
  rewrite filter_app, (filter_cons_False _ _ []) by (cbn; congruence).
  rewrite filter_nil, app_nil_r. apply filter_all, Forall_forall. intros s Hs Heq.
  apply Hfresh. rewrite <- Heq. apply in_map, list_elem_of_In, Hs.
Qed.

Lemma add_then_delete_restores_witness :
  ~ In (randomUUID clock0 (produced rosterAll)) (map id (roster rosterAll))
  /\ roster (deleteStudent true (addStudent clock0 rosterAll parkInput)
                          (randomUUID clock0 (produced rosterAll)))
     = [kim; lee].
Proof.
  assert (H : ~ In (randomUUID clock0 (produced rosterAll)) (map id (roster rosterAll))).
  { vm_compute. intros [H|[H|[]]]; discriminate. }
  split; [exact H|].
  exact (add_then_delete_restores clock0 rosterAll parkInput H).
Defined.

Lemma group_partition (l : list Student) :
  l ≡ₚ filter (fun s => group s = GroupA) l
       ++ filter (fun s => group s = GroupB) l
       ++ filter (fun s => group s = GroupC) l.
Proof.
  induction l as [|s l IH]; [reflexivity|].
  rewrite !filter_cons. destruct (group s) eqn:Hg.
  - rewrite !decide_True by reflexivity.
    rewrite !decide_False by discriminate. cbn [app]. apply Permutation_skip, IH.
  - rewrite (decide_True (P := GroupB = GroupB)) by reflexivity.
    rewrite !decide_False by discriminate. cbn [app].
    rewrite <- Permutation_middle. apply Permutation_skip, IH.
  - rewrite (decide_True (P := GroupC = GroupC)) by reflexivity.
    rewrite !decide_False by discriminate.
    rewrite app_assoc, <- Permutation_middle, <- app_assoc. apply Permutation_skip, IH.
Qed.

(** X8. The three tabs split the roster: the views of A, B and C together
    hold every record once, and the three counts of the statistics bar add
    up to the total. *)
Theorem tabs_partition_roster app :
  roster app ≡ₚ listStudents (selectTab app (Tab GroupA))
                ++ listStudents (selectTab app (Tab GroupB))
                ++ listStudents (selectTab app (Tab GroupC))
  /\ totalCount app
     = (groupCount app GroupA + groupCount app GroupB + groupCount app GroupC)%nat
  /\ listStudents (selectTab app ALL) = roster app.
Proof.
  rewrite !listStudents_view. cbn [activeTab selectTab].
  change (roster (selectTab app _)) with (roster app).
  split; [apply group_partition|]. split; [|reflexivity].
  unfold totalCount, groupCount.
  rewrite (Permutation_length (group_partition (roster app))), !length_app. lia.
Qed.

(** ** Arrays of the state *)

Lemma allocated_setStudents app next : allocated (setStudents app next).
Proof.
  unfold allocated, setStudents. cbn. split; [lia|]. rewrite lookup_insert_eq. eauto.
Qed.

Lemma handleCsvImport_state env app text :
  fst (handleCsvImport env app text)
  = match importLoop env (produced app) (dataLines text) with
    | [] => app
    | imported =>
        mkApp (<[nextRef app := roster app ++ imported]> (heap app))
              (S (nextRef app)) (nextRef app) (activeTab app)
              (produced app + length imported)
    end.
Proof.
  unfold handleCsvImport. destruct (importLoop _ _ _); reflexivity.
Qed.

(** X9. Adding, updating, deleting and importing never touch the array
    that the state referred to before: each stores a new array. After any
    of them, and after an export, the state refers to an allocated array. *)
Theorem state_array_is_replaced env app input target confirmed text :
  allocated app ->
  (deref (heap (addStudent env app input)) (students app) = roster app
   /\ deref (heap (updateStudent app target input)) (students app) = roster app
   /\ deref (heap (deleteStudent confirmed app target)) (students app) = roster app
   /\ deref (heap (fst (handleCsvImport env app text))) (students app) = roster app)
  /\ (allocated (addStudent env app input)
      /\ allocated (updateStudent app target input)
      /\ allocated (deleteStudent confirmed app target)
      /\ allocated (fst (handleCsvImport env app text))
      /\ allocated (fst (exportToCsv app))).
Proof.
  intros [Hlt Hsome].
  assert (Hold : forall next,
             deref (<[nextRef app := next]> (heap app)) (students app) = roster app).
  { intros next. unfold deref, roster. rewrite lookup_insert_ne by lia. reflexivity. }
  assert (Hnew : forall next tab n,
             allocated (mkApp (<[nextRef app := next]> (heap app)) (S (nextRef app))
                              (nextRef app) tab n)).
  { intros. unfold allocated. cbn. split; [lia|]. rewrite lookup_insert_eq. eauto. }
  split.
  - split; [apply Hold|]. split; [apply Hold|]. split.
    + destruct confirmed; [apply Hold | reflexivity].
    + rewrite handleCsvImport_state. destruct (importLoop _ _ _); [reflexivity | apply Hold].
  - split; [apply Hnew|]. split; [apply allocated_setStudents|]. split.
    + destruct confirmed; [apply allocated_setStudents | split; assumption].
    + split.
      * rewrite handleCsvImport_state.
        destruct (importLoop _ _ _); [split; assumption | apply Hnew].
      * unfold exportToCsv, filteredStudents.
        destruct (activeTab app) as [|g].
        -- destruct (deref (heap app) (students app)) as [|s l] eqn:Harr;
             cbn [fst]; [split; assumption|].
           unfold allocated. cbn. split; [lia|]. rewrite lookup_insert_eq. eauto.
        -- cbn [heap nextRef students activeTab produced].
           destruct (deref (<[nextRef app:=_]> (heap app)) (nextRef app));
             cbn [fst]; unfold allocated; cbn; (split; [lia|]);
             rewrite ?lookup_insert_ne by lia; exact Hsome.
Qed.

Lemma state_array_is_replaced_witness :
  allocated rosterAll
  /\ deref (heap (addStudent clock0 rosterAll parkInput)) (students rosterAll) = [kim; lee].
Proof.
  assert (H : allocated rosterAll).
  { split; [vm_compute; lia | exists [kim; lee]; reflexivity]. }
  split; [exact H|].
  exact (proj1 (proj1 (state_array_is_replaced clock0 rosterAll parkInput
                         (str "id-1") true (str "") H))).
Defined.

(** ** The import as a whole *)

Lemma roster_mkApp h r next tab n :
  roster (mkApp (<[r := next]> h) (S r) r tab n) = next.
Proof. unfold roster, deref. cbn. rewrite lookup_insert_eq. reflexivity. Qed.

Lemma hasName_importRow env k line :
  (hasName line = true -> is_Some (importRow env k line))
  /\ (hasName line = false -> importRow env k line = None).
Proof.
  unfold hasName, importRow.
  destruct (clean (tokenize line !! 4%nat)) as [|c nm]; cbn; split;
    try discriminate; eauto.
Qed.

Lemma importLoop_length env k lines :
  length (importLoop env k lines) = length (List.filter hasName lines).
Proof.
  revert k. induction lines as [|line lines IH]; intros k; [reflexivity|].
  cbn [importLoop List.filter].
  destruct (hasName line) eqn:Hn.
  - destruct (proj1 (hasName_importRow env k line) Hn) as [s ->].
    cbn [length]. rewrite IH. reflexivity.
  - rewrite (proj2 (hasName_importRow env k line) Hn). apply IH.
Qed.

(** X10. The import reports the number of data lines whose cleaned name
    token is not empty, appends that many records after the records already
    there, and reports a failure and leaves the state alone when there is no
    such line. *)
Theorem import_outcome_counts env app text :
  let n := length (List.filter hasName (dataLines text)) in
  snd (handleCsvImport env app text)
  = (if (n =? 0)%nat then NothingImported else Imported n)
  /\ totalCount (fst (handleCsvImport env app text)) = (totalCount app + n)%nat
  /\ take (totalCount app) (roster (fst (handleCsvImport env app text))) = roster app
  /\ (n = 0%nat -> fst (handleCsvImport env app text) = app)
  /\ (n <= length (dataLines text))%nat.
Proof.
  intros n. unfold n. rewrite <- (importLoop_length env (produced app)).
  unfold handleCsvImport, totalCount.
  destruct (importLoop env (produced app) (dataLines text)) as [|s l] eqn:Himp.
  - cbn [snd fst length]. rewrite take_ge by lia.
    repeat split; try reflexivity; lia.
  - cbn [snd fst]. rewrite !roster_mkApp. fold (roster app).
    split; [reflexivity|]. split; [apply length_app|].
    split; [apply take_app_length|]. split; [discriminate|].
    rewrite <- Himp, importLoop_length. apply filter_length_le.
Qed.

(** X11. The records of one import take their [id] and [createdAt] from
    consecutive calls of the generators, in line order: a line that is
    skipped uses no call. *)
Theorem imported_ids_follow_calls env k lines :
  let imported := importLoop env k lines in
  map id imported = map (randomUUID env) (seq k (length imported))
  /\ map createdAt imported = map (dateNow env) (seq k (length imported)).
Proof.
  cbn zeta. revert k. induction lines as [|line lines IH]; intros k; [split; reflexivity|].
  cbn [importLoop]. destruct (importRow env k line) as [s|] eqn:Hrow; [|apply IH].
  apply importRow_Some in Hrow as [_ ->].
  cbn [map length seq id createdAt]. destruct (IH (S k)) as [-> ->]. split; reflexivity.
Qed.

(** ** Lines of the imported text *)

Lemma splitLines_first_line h body :
  ~ In LF h -> exists first, splitLines (h ++ LF :: body) = first :: splitLines body.
Proof.
  induction h as [|c h IH]; intros Hlf.
  - exists []. cbn [app]. destruct body; reflexivity.
  - assert (Hc : (c =? LF) = false) by (apply N.eqb_neq; intros ->; apply Hlf; left; reflexivity).
    destruct (IH (fun H => Hlf (or_intror H))) as [first Hfirst].
    destruct h as [|d h].
    + cbn [app] in *.
      change (splitLines (c :: LF :: body))
        with (if (c =? CR) && (LF =? LF) then [] :: splitLines body
              else if c =? LF then [] :: splitLines (LF :: body)
              else match splitLines (LF :: body) with
                   | piece :: pieces => (c :: piece) :: pieces
                   | [] => [[c]]
                   end).
      change (LF =? LF) with true. rewrite andb_true_r, Hc.
      destruct (c =? CR); [exists []; reflexivity|].
      rewrite Hfirst. eauto.
    + assert (Hd : (d =? LF) = false)
        by (apply N.eqb_neq; intros ->; apply Hlf; right; left; reflexivity).
      change (splitLines ((c :: d :: h) ++ LF :: body))
        with (if (c =? CR) && (d =? LF) then [] :: splitLines (h ++ LF :: body)
              else if c =? LF then [] :: splitLines ((d :: h) ++ LF :: body)
              else match splitLines ((d :: h) ++ LF :: body) with
                   | piece :: pieces => (c :: piece) :: pieces
                   | [] => [[c]]
                   end).
      rewrite Hd, andb_false_r, Hc, Hfirst. eauto.
Qed.

Lemma dataLines_after_header h body :
  ~ In LF h ->
  dataLines (h ++ LF :: body) = filter (fun line => trim line <> []) (splitLines body).
Proof.
  intros Hlf. unfold dataLines.
  destruct (splitLines_first_line h body Hlf) as [first ->]. reflexivity.
Qed.

(** X12. The first line of the text is discarded whatever it holds: two
    texts that differ only in their first line import alike. *)
Theorem header_line_is_ignored env app h1 h2 body :
  ~ In LF h1 -> ~ In LF h2 ->
  handleCsvImport env app (h1 ++ LF :: body) = handleCsvImport env app (h2 ++ LF :: body).
Proof.
  intros H1 H2. unfold handleCsvImport.
  rewrite (dataLines_after_header h1 body H1), (dataLines_after_header h2 body H2).
  reflexivity.
Qed.

Lemma header_line_is_ignored_witness :
  ~ In LF (str "a,b,c") /\ ~ In LF (str "")
  /\ handleCsvImport clock0 rosterAll (str "a,b,c" ++ LF :: str "1,2,3,A,Kim,010,ok")
     = handleCsvImport clock0 rosterAll (str "" ++ LF :: str "1,2,3,A,Kim,010,ok").
Proof.
  assert (H1 : ~ In LF (str "a,b,c")) by (vm_compute; intuition discriminate).
  assert (H2 : ~ In LF (str "")) by (vm_compute; intuition).
  split; [exact H1|]. split; [exact H2|].
  exact (header_line_is_ignored clock0 rosterAll _ _ (str "1,2,3,A,Kim,010,ok") H1 H2).
Defined.

Lemma splitLines_no_feed s : ~ In LF s -> exists line, splitLines s = [line].
Proof.
  induction s as [|c s IH]; intros Hlf; [exists []; reflexivity|].
  assert (Hc : (c =? LF) = false) by (apply N.eqb_neq; intros ->; apply Hlf; left; reflexivity).
  destruct (IH (fun H => Hlf (or_intror H))) as [line Hline].
  destruct s as [|d s].
  - cbn [splitLines]. rewrite Hc. eauto.
  - assert (Hd : (d =? LF) = false)
      by (apply N.eqb_neq; intros ->; apply Hlf; right; left; reflexivity).
    change (splitLines (c :: d :: s))
      with (if (c =? CR) && (d =? LF) then [] :: splitLines s
            else if c =? LF then [] :: splitLines (d :: s)
            else match splitLines (d :: s) with
                 | piece :: pieces => (c :: piece) :: pieces
                 | [] => [[c]]
                 end).
    rewrite Hd, andb_false_r, Hc, Hline. eauto.
Qed.

(** X13. A text with no line feed, the empty text among them, has a header
    at most: the import produces nothing, reports the failure and leaves
    the state as it was. *)
Theorem text_without_line_feed_imports_nothing env app text :
  ~ In LF text -> handleCsvImport env app text = (app, NothingImported).
Proof.
  intros Hlf. unfold handleCsvImport, dataLines.
  destruct (splitLines_no_feed text Hlf) as [line ->]. reflexivity.
Qed.

Lemma text_without_line_feed_imports_nothing_witness :
  ~ In LF (str "1,2,3,A,Kim,010,ok")
  /\ handleCsvImport clock0 rosterAll (str "1,2,3,A,Kim,010,ok")
     = (rosterAll, NothingImported).
Proof.
  assert (H : ~ In LF (str "1,2,3,A,Kim,010,ok")) by (vm_compute; intuition discriminate).
  split; [exact H|].
  exact (text_without_line_feed_imports_nothing clock0 rosterAll _ H).
Defined.

Lemma splitLines_crlf_line l rest :
  noLineBreak l = true -> splitLines (l ++ CR :: LF :: rest) = l :: splitLines rest.
Proof.
  induction l as [|c l IH]; cbn [app].
  - intros _. reflexivity.
  - unfold noLineBreak. cbn [forallb]. intros H. apply andb_true_iff in H as [Hc Hl].
    specialize (IH Hl).
    apply negb_true_iff in Hc. unfold isLineTerminator in Hc.
    rewrite !orb_false_iff in Hc. destruct Hc as [[[Hlf Hcr] _] _].
    destruct (l ++ CR :: LF :: rest) as [|d x] eqn:Hx; [destruct l; discriminate|].
    change (splitLines (c :: d :: x))
      with (if (c =? CR) && (d =? LF) then [] :: splitLines x
            else if c =? LF then [] :: splitLines (d :: x)
            else match splitLines (d :: x) with
                 | piece :: pieces => (c :: piece) :: pieces
                 | [] => [[c]]
                 end).
    change (c =? CR) with (c =? 13). change (c =? LF) with (c =? 10).
    rewrite Hcr, Hlf, IH. reflexivity.
Qed.

Lemma splitLines_join_crlf lines :
  Forall (fun l => noLineBreak l = true) lines ->
  splitLines (join CRLF lines) = splitLines (join [LF] lines).
Proof.
  induction 1 as [|l ls Hl Hls IH]; [reflexivity|].
  destruct ls as [|m ls]; [reflexivity|].
  change (join CRLF (l :: m :: ls)) with (l ++ CR :: LF :: join CRLF (m :: ls)).
  change (join [LF] (l :: m :: ls)) with (l ++ LF :: join [LF] (m :: ls)).
  rewrite (splitLines_crlf_line _ _ Hl), (splitLines_cons_line _ _ Hl), IH. reflexivity.
Qed.

(** X14. Lines ended by carriage return and line feed import as the same
    lines ended by line feed alone. *)
Theorem crlf_lines_import_alike env app lines :
  Forall (fun l => noLineBreak l = true) lines ->
  dataLines (join CRLF lines) = dataLines (join [LF] lines)
  /\ handleCsvImport env app (join CRLF lines) = handleCsvImport env app (join [LF] lines).
Proof.
  intros H.
  assert (Hd : dataLines (join CRLF lines) = dataLines (join [LF] lines))
    by (unfold dataLines; rewrite (splitLines_join_crlf lines H); reflexivity).
  split; [exact Hd|]. unfold handleCsvImport. rewrite Hd. reflexivity.
Qed.

Lemma crlf_lines_import_alike_witness :
  Forall (fun l => noLineBreak l = true) [str "h"; str "1,2,3,A,Kim,010,ok"]
  /\ dataLines (join CRLF [str "h"; str "1,2,3,A,Kim,010,ok"]) = [str "1,2,3,A,Kim,010,ok"].
Proof.
  assert (H : Forall (fun l => noLineBreak l = true) [str "h"; str "1,2,3,A,Kim,010,ok"])
    by (repeat constructor).
  split; [exact H|].
  rewrite (proj1 (crlf_lines_import_alike clock0 rosterAll _ H)). vm_compute. reflexivity.
Defined.

(** ** Cleaned text *)

Lemma trimStart_shape s :
  trimStart s = [] \/ exists c r, trimStart s = c :: r /\ isSpace c = false.
Proof.
  induction s as [|c s IH]; [left; reflexivity|]. cbn [trimStart].
  destruct (isSpace c) eqn:Hc; [exact IH | right; eauto].
Qed.

Lemma trimStart_suffix s : exists pre, s = pre ++ trimStart s.
Proof.
  induction s as [|c s [pre IH]]; [exists []; reflexivity|]. cbn [trimStart].
  destruct (isSpace c); [exists (c :: pre); cbn; congruence | exists []; reflexivity].
Qed.

Lemma trimStart_fixed c r : isSpace c = false -> trimStart (c :: r) = c :: r.
Proof. intros H. cbn. rewrite H. reflexivity. Qed.

Lemma trim_idempotent s : trim (trim s) = trim s.
Proof.
  unfold trim, trimEnd.
  destruct (trimStart_shape s) as [->|(c & r & -> & Hc)]; [reflexivity|].
  destruct (trimStart_suffix (rev (c :: r))) as [pre Hpre].
  destruct (trimStart_shape (rev (c :: r))) as [Hb|(d & b & Hb & Hd)];
    [rewrite Hb; reflexivity|].
  rewrite Hb in *.
  assert (Hhead : exists x y, rev (d :: b) = x :: y /\ isSpace x = false).
  { apply (f_equal (@rev N)) in Hpre. rewrite rev_involutive, rev_app_distr in Hpre.
    destruct (rev (d :: b)) as [|x y] eqn:Hx.
    - apply (f_equal (@rev N)) in Hx. rewrite rev_involutive in Hx. discriminate.
    - cbn [app] in Hpre. injection Hpre as <- _. eauto. }
  destruct Hhead as (x & y & Hxy & Hx).
  rewrite Hxy at 1. rewrite (trimStart_fixed _ _ Hx), <- Hxy, rev_involutive.
  rewrite (trimStart_fixed _ _ Hd). reflexivity.
Qed.

Lemma clean_trimmed val : trim (clean val) = clean val.
Proof. unfold clean. apply trim_idempotent. Qed.

(** X15. The name, the phone and the remarks of every record that import
    produces have no white space at either end. *)
Theorem imported_text_is_trimmed env k line s :
  importRow env k line = Some s ->
  trim (name s) = name s /\ trim (phone s) = phone s /\ trim (remarks s) = remarks s.
Proof.
  intros H. apply importRow_Some in H as [Hname ->]. cbn [name phone remarks].
  rewrite (orElse_nonempty _ _ Hname), !orElse_nil.
  repeat split; apply clean_trimmed.
Qed.

Lemma imported_text_is_trimmed_witness :
  importRow clock0 0 (str "1,2,3,b,Kim,010,ok")
  = Some (mkStudent (str "uuid") 1 2 3 GroupB (str "Kim") (str "010") (str "ok") 0)
  /\ trim (str "Kim") = str "Kim".
Proof.
  split; [vm_compute; reflexivity|].
  apply (imported_text_is_trimmed clock0 0 (str "1,2,3,b,Kim,010,ok")
           (mkStudent (str "uuid") 1 2 3 GroupB (str "Kim") (str "010") (str "ok") 0)).
  vm_compute; reflexivity.
Defined.

(** ** What the pattern matches *)

Lemma matchPlain_split s t rest :
  matchPlain s = Some (t, rest) ->
  s = t ++ rest /\ plainField t = true /\ lookahead rest = true.
Proof.
  revert t rest. induction s as [|c s IH]; intros t rest; [discriminate|].
  cbn [matchPlain]. destruct (isPlain c) eqn:Hc; [|discriminate].
  destruct (matchPlain s) as [[t' rest']|] eqn:Hm.
  - intros [= <- <-]. destruct (IH t' rest' eq_refl) as (-> & Hp & Hl).
    split; [reflexivity|]. split; [|exact Hl].
    cbn [plainField forallb]. rewrite Hc. destruct t'; [discriminate | exact Hp].
  - destruct (lookahead s) eqn:Hl; [|discriminate]. intros [= <- <-].
    split; [reflexivity|]. split; [cbn; rewrite Hc; reflexivity | exact Hl].
Qed.

Lemma lazyQuoted_split s acc t rest :
  lazyQuoted s acc = Some (t, rest) ->
  exists body, t = rev acc ++ body ++ [QUOTE] /\ s = body ++ QUOTE :: rest
               /\ noLineBreak body = true /\ lookahead rest = true.
Proof.
  revert acc. induction s as [|c s IH]; intros acc; [discriminate|].
  cbn [lazyQuoted]. destruct ((c =? QUOTE) && lookahead s) eqn:Hq.
  - intros [= <- <-]. apply andb_true_iff in Hq as [Hc Hl]. apply N.eqb_eq in Hc as ->.
    exists []. repeat split; try reflexivity. exact Hl.
  - destruct (isLineTerminator c) eqn:Hlt; [discriminate|].
    intros H. destruct (IH _ H) as (body & -> & -> & Hb & Hl).
    exists (c :: body). cbn [rev]. rewrite <- app_assoc.
    repeat split; [|exact Hl]. unfold noLineBreak in *. cbn [forallb]. rewrite Hlt, Hb.
    reflexivity.
Qed.

Lemma matchQuoted_split s t rest :
  matchQuoted s = Some (t, rest) ->
  s = t ++ rest /\ quotedToken t = true /\ lookahead rest = true.
Proof.
  destruct s as [|c s]; [discriminate|]. cbn [matchQuoted].
  destruct (N.eqb_spec c QUOTE) as [->|]; [|discriminate].
  intros H. destruct (lazyQuoted_split _ _ _ _ H) as (body & -> & -> & Hb & Hl).
  cbn [rev app]. split; [rewrite <- app_assoc; reflexivity|]. split; [|exact Hl].
  unfold quotedToken. change (QUOTE =? QUOTE) with true.
  rewrite rev_app_distr. cbn [rev app andb]. change (QUOTE =? QUOTE) with true. cbn [andb].
  unfold noLineBreak in *. cbn [forallb]. rewrite forallb_app, Hb. reflexivity.
Qed.

Lemma matchAt_split s t rest :
  matchAt s = Some (t, rest) ->
  s = t ++ rest /\ tokenShape t = true /\ lookahead rest = true.
Proof.
  unfold matchAt, tokenShape. destruct (matchQuoted s) as [[t' rest']|] eqn:Hq.
  - intros [= <- <-]. destruct (matchQuoted_split _ _ _ Hq) as (? & -> & ?).
    rewrite orb_true_r. auto.
  - intros H. destruct (matchPlain_split _ _ _ H) as (? & -> & ?). auto.
Qed.

Lemma tokenShape_cons t : tokenShape t = true -> exists c t', t = c :: t'.
Proof. destruct t; [discriminate | eauto]. Qed.

Lemma scanFrom_matched s t rest :
  matchAt s = Some (t, rest) -> scanFrom s 0 = t :: scanFrom rest 0.
Proof.
  intros Hm. destruct (matchAt_split _ _ _ Hm) as (Hs & Ht & _).
  destruct (tokenShape_cons t Ht) as (c & t' & ->). subst s.
  cbn [app] in *. cbn [scanFrom]. rewrite Hm. cbn [length Nat.pred].
  rewrite scanFrom_skip. reflexivity.
Qed.

(** Induction along the scan: a position without a match is stepped over,
    a match is recorded and the scan goes on behind it. *)
Lemma matchAll_ind (P : jsstring -> list jsstring -> Prop) :
  P [] [] ->
  (forall c s, matchAt (c :: s) = None -> P s (matchAll s) -> P (c :: s) (matchAll s)) ->
  (forall s t rest, matchAt s = Some (t, rest) -> s = t ++ rest ->
                    tokenShape t = true -> lookahead rest = true ->
                    P rest (matchAll rest) -> P s (t :: matchAll rest)) ->
  forall s, P s (matchAll s).
Proof.
  intros Hnil Hstep Hmatch s. unfold matchAll in *.
  remember (length s) as n eqn:Hn. revert s Hn.
  induction n as [n IH] using lt_wf_ind. intros s Hn.
  destruct s as [|c s]; [exact Hnil|].
  destruct (matchAt (c :: s)) as [[t rest]|] eqn:Hm.
  - rewrite (scanFrom_matched _ _ _ Hm).
    destruct (matchAt_split _ _ _ Hm) as (Hs & Ht & Hl).
    apply (Hmatch _ _ _ Hm Hs Ht Hl).
    apply (IH (length rest)); [|reflexivity].
    destruct (tokenShape_cons t Ht) as (d & t' & ->).
    rewrite Hn, Hs, length_app. cbn. lia.
  - cbn [scanFrom]. rewrite Hm. apply (Hstep _ _ Hm).
    apply (IH (length s)); [rewrite Hn; cbn; lia | reflexivity].
Qed.

(** X16. Every match of the pattern is either a non-empty run free of
    quote, comma and white space, or a text that starts and ends with a
    quote and holds no line terminator. *)
Theorem matches_have_token_shape line :
  Forall (fun t => tokenShape t = true) (matchAll line).
Proof.
  apply (matchAll_ind (fun _ ts => Forall (fun t => tokenShape t = true) ts)).
  - constructor.
  - intros; assumption.
  - intros s t rest _ _ Ht _ IH. constructor; assumption.
Qed.

Lemma matchAll_sublist line : concat (matchAll line) `sublist_of` line.
Proof.
  apply (matchAll_ind (fun s ts => concat ts `sublist_of` s)).
  - constructor.
  - intros c s _ IH. apply sublist_cons, IH.
  - intros s t rest _ -> _ _ IH. cbn [concat]. apply sublist_app; [reflexivity | exact IH].
Qed.

(** X17. The matches are pieces of the line that follow each other without
    overlap: put end to end they are a subsequence of the line, so together
    they are no longer than the line. *)
Theorem matches_are_pieces_in_order line :
  concat (matchAll line) `sublist_of` line
  /\ (length (concat (matchAll line)) <= length line)%nat.
Proof.
  split; [apply matchAll_sublist | apply sublist_length, matchAll_sublist].
Qed.

Lemma splitComma_cons s : exists p ps, splitComma s = p :: ps.
Proof.
  destruct s as [|c s]; cbn; [eauto|].
  destruct (c =? COMMA); [eauto|]. destruct (splitComma s); eauto.
Qed.

Lemma join_splitComma s : join [COMMA] (splitComma s) = s.
Proof.
  induction s as [|c s IH]; [reflexivity|]. cbn [splitComma].
  destruct (splitComma_cons s) as (p & ps & Hs). rewrite Hs in *.
  destruct (N.eqb_spec c COMMA) as [->|Hc].
  - change (join [COMMA] ([] :: p :: ps)) with (COMMA :: join [COMMA] (p :: ps)).
    rewrite IH. reflexivity.
  - destruct ps as [|q ps].
    + cbn [join] in *. rewrite IH. reflexivity.
    + change (join [COMMA] ((c :: p) :: q :: ps))
        with (c :: (p ++ [COMMA] ++ join [COMMA] (q :: ps))).
      change (join [COMMA] (p :: q :: ps))
        with (p ++ [COMMA] ++ join [COMMA] (q :: ps)) in IH.
      rewrite IH. reflexivity.
Qed.

Lemma splitComma_pieces s : Forall (fun p => ~ In COMMA p) (splitComma s).
Proof.
  induction s as [|c s IH]; cbn [splitComma]; [repeat constructor; intros []|].
  destruct (N.eqb_spec c COMMA) as [->|Hc]; [constructor; [intros []|exact IH]|].
  destruct (splitComma s) as [|p ps]; [repeat constructor; intros [?|[]]; congruence|].
  inversion IH as [|? ? Hp Hps]; subst. constructor; [|exact Hps].
  intros [?|?]; [congruence | contradiction].
Qed.

(** X18. When the pattern matches nowhere, the tokens are the pieces
    between the commas of the line: none holds a comma, and joined by
    commas they give the line back. *)
Theorem fallback_tokens_rejoin line :
  matchAll line = [] ->
  join [COMMA] (tokenize line) = line
  /\ Forall (fun p => ~ In COMMA p) (tokenize line).
Proof.
  intros H. unfold tokenize. rewrite H.
  split; [apply join_splitComma | apply splitComma_pieces].
Qed.

Lemma fallback_tokens_rejoin_witness :
  matchAll (str ",,,,,,") = []
  /\ join [COMMA] (tokenize (str ",,,,,,")) = str ",,,,,,".
Proof.
  assert (H : matchAll (str ",,,,,,") = []) by (vm_compute; reflexivity).
  split; [exact H|]. exact (proj1 (fallback_tokens_rejoin _ H)).
Defined.

Lemma splitComma_length_cons c s :
  length (splitComma (c :: s))
  = if c =? COMMA then S (length (splitComma s)) else length (splitComma s).
Proof.
  cbn [splitComma]. destruct (c =? COMMA); [reflexivity|].
  destruct (splitComma_cons s) as (p & ps & ->). reflexivity.
Qed.

Lemma splitComma_length_app t rest :
  (length (splitComma rest) <= length (splitComma (t ++ rest)))%nat.
Proof.
  induction t as [|c t IH]; [reflexivity|]. cbn [app].
  rewrite splitComma_length_cons. destruct (c =? COMMA); lia.
Qed.

Lemma matchAt_not_token_start c s :
  (c =? COMMA) = true \/ isSpace c = true -> matchAt (c :: s) = None.
Proof.
  intros H. unfold matchAt, matchQuoted.
  assert (Hq : (c =? QUOTE) = false).
  { destruct H as [H|H]; [apply N.eqb_eq in H as ->; reflexivity|].
    apply N.eqb_neq. intros ->. discriminate. }
  assert (Hp : isPlain c = false).
  { unfold isPlain. destruct H as [-> | ->]; rewrite ?andb_false_r; reflexivity. }
  rewrite Hq. cbn [matchPlain]. rewrite Hp. reflexivity.
Qed.

(** X19. The pattern never yields more matches than the line has fields
    between commas. *)
Theorem matches_at_most_fields line :
  (length (matchAll line) <= length (splitComma line))%nat.
Proof.
  assert (H : (length (matchAll line) <= length (splitComma line))%nat
              /\ (lookahead line = true ->
                  (S (length (matchAll line)) <= length (splitComma line))%nat
                  \/ line = [])).
  { apply (matchAll_ind (fun s ts =>
             (length ts <= length (splitComma s))%nat
             /\ (lookahead s = true ->
                 (S (length ts) <= length (splitComma s))%nat \/ s = []))).
    - split; [cbn; lia | auto].
    - intros c s Hm [IH1 IH2]. rewrite splitComma_length_cons. split.
      + destruct (c =? COMMA); lia.
      + cbn [lookahead]. destruct (c =? COMMA); [intros _; left; lia|].
        destruct (isSpace c); [|discriminate]. intros Hl.
        destruct (IH2 Hl) as [?| ->]; [left; assumption|]. left. cbn. lia.
    - intros s t rest Hm -> Ht Hl [IH1 IH2]. cbn [length].
      pose proof (splitComma_length_app t rest) as Happ. split.
      + destruct (IH2 Hl) as [?| ->]; [lia|].
        destruct (splitComma_cons (t ++ [])) as (p & ps & ->). cbn. lia.
      + intros Hs. exfalso.
        destruct (tokenShape_cons t Ht) as (c & t' & ->). cbn [app lookahead] in Hs.
        assert (Hnone : matchAt (c :: t' ++ rest) = None).
        { apply matchAt_not_token_start.
          destruct (c =? COMMA); [left; reflexivity|].
          destruct (isSpace c); [right; reflexivity | discriminate]. }
        cbn [app] in Hm. congruence. }
  exact (proj1 H).
Qed.

(** ** More on the export *)

Lemma arraySort_sorted_id {T} (cmp : T -> T -> Z) l :
  StronglySorted (fun a b => (cmp a b <= 0)%Z) l -> arraySort cmp l = l.
Proof.
  induction 1 as [|x l Hl IH Hx]; [reflexivity|].
  change (arraySort cmp (x :: l)) with (insertSorted cmp x (arraySort cmp l)).
  rewrite IH. destruct l as [|y l]; [reflexivity|]. cbn [insertSorted].
  pose proof (Forall_inv Hx) as Hxy. cbn in Hxy.
  destruct (Z.leb_spec (cmp x y) 0); [reflexivity | lia].
Qed.

Lemma keyLe_sorted_cmp l :
  StronglySorted keyLe l <-> StronglySorted (fun a b => (compareStudents a b <= 0)%Z) l.
Proof.
  split; induction 1 as [|x l Hl IH Hx]; constructor; try assumption;
    (eapply Forall_impl; [exact Hx|]); intros y; apply compareStudents_le.
Qed.

Lemma sortStudents_idempotent l :
  arraySort compareStudents (arraySort compareStudents l) = arraySort compareStudents l.
Proof. apply arraySort_sorted_id, keyLe_sorted_cmp, sortStudents_sorted. Qed.

Lemma arraySort_nil {T} (cmp : T -> T -> Z) l : arraySort cmp l = [] -> l = [].
Proof.
  intros H. destruct l as [|x l]; [reflexivity|].
  change (arraySort cmp (x :: l)) with (insertSorted cmp x (arraySort cmp l)) in H.
  destruct (arraySort cmp l) as [|y r]; cbn in H; [discriminate|].
  destruct (cmp x y <=? 0)%Z; discriminate.
Qed.

Lemma exportToCsv_snd app :
  snd (exportToCsv app)
  = match listStudents app with
    | [] => None
    | _ :: _ => Some (blobText (arraySort compareStudents (listStudents app)))
    end.
Proof.
  unfold exportToCsv, listStudents.
  destruct (filteredStudents app) as [app1 r].
  destruct (deref (heap app1) r); reflexivity.
Qed.

Lemma exportToCsv_view app :
  (students app < nextRef app)%nat ->
  listStudents (fst (exportToCsv app)) = arraySort compareStudents (listStudents app)
  \/ listStudents (fst (exportToCsv app)) = listStudents app.
Proof.
  intros Hlt. destruct (activeTab app) as [|g] eqn:Htab.
  - left. apply export_all_sorts_roster, Htab.
  - right. apply (export_tab_keeps_roster app g Htab Hlt).
Qed.

Lemma exportToCsv_roster app :
  (students app < nextRef app)%nat ->
  roster (fst (exportToCsv app))
  = match activeTab app with
    | ALL => arraySort compareStudents (roster app)
    | Tab _ => roster app
    end.
Proof.
  intros Hlt. destruct (activeTab app) as [|g] eqn:Htab.
  - pose proof (export_all_sorts_roster app Htab) as H.
    rewrite !listStudents_view, Htab in H.
    assert (Ht : activeTab (fst (exportToCsv app)) = ALL).
    { unfold exportToCsv, filteredStudents. rewrite Htab.
      destruct (deref (heap app) (students app)); cbn; congruence. }
    rewrite Ht in H. exact H.
  - apply (export_tab_keeps_roster app g Htab Hlt).
Qed.

(** X20. Export of an empty view is refused: no file is produced, and the
    roster and the view are as they were. *)
Theorem export_refuses_empty_view app :
  (students app < nextRef app)%nat ->
  listStudents app = [] ->
  snd (exportToCsv app) = None
  /\ roster (fst (exportToCsv app)) = roster app
  /\ listStudents (fst (exportToCsv app)) = [].
Proof.
  intros Hlt Hempty. split; [rewrite exportToCsv_snd, Hempty; reflexivity|].
  split.
  - rewrite (exportToCsv_roster app Hlt).
    destruct (activeTab app) eqn:Htab; [|reflexivity].
    rewrite listStudents_view, Htab in Hempty. rewrite Hempty. reflexivity.
  - destruct (exportToCsv_view app Hlt) as [-> | ->]; rewrite Hempty; reflexivity.
Qed.

Lemma export_refuses_empty_view_witness :
  (students (selectTab rosterAll (Tab GroupC)) < nextRef (selectTab rosterAll (Tab GroupC)))%nat
  /\ listStudents (selectTab rosterAll (Tab GroupC)) = []
  /\ snd (exportToCsv (selectTab rosterAll (Tab GroupC))) = None.
Proof.
  assert (H1 : (students (selectTab rosterAll (Tab GroupC))
                < nextRef (selectTab rosterAll (Tab GroupC)))%nat) by (vm_compute; lia).
  assert (H2 : listStudents (selectTab rosterAll (Tab GroupC)) = [])
    by (vm_compute; reflexivity).
  split; [exact H1|]. split; [exact H2|].
  exact (proj1 (export_refuses_empty_view _ H1 H2)).
Defined.

(** X21. An export neither adds nor drops a record: the roster after it is
    a rearrangement of the roster before it, with the same total and the
    same count for every group. *)
Theorem export_keeps_records app :
  (students app < nextRef app)%nat ->
  roster (fst (exportToCsv app)) ≡ₚ roster app
  /\ totalCount (fst (exportToCsv app)) = totalCount app
  /\ (forall g, groupCount (fst (exportToCsv app)) g = groupCount app g).
Proof.
  intros Hlt.
  assert (H : roster (fst (exportToCsv app)) ≡ₚ roster app).
  { rewrite (exportToCsv_roster app Hlt).
    destruct (activeTab app); [apply arraySort_perm | reflexivity]. }
  split; [exact H|]. unfold totalCount, groupCount.
  split; [rewrite H; reflexivity | intros g; rewrite H; reflexivity].
Qed.

Lemma export_keeps_records_witness :
  (students rosterAll < nextRef rosterAll)%nat
  /\ roster (fst (exportToCsv rosterAll)) ≡ₚ roster rosterAll.
Proof.
  assert (H : (students rosterAll < nextRef rosterAll)%nat) by (vm_compute; lia).
  split; [exact H|]. exact (proj1 (export_keeps_records rosterAll H)).
Defined.

(** X22. Under ALL an export leaves the order of the roster as it was
    exactly when the roster was already in the order of the export. *)
Theorem export_all_keeps_order_iff_sorted app :
  activeTab app = ALL ->
  (roster (fst (exportToCsv app)) = roster app <-> StronglySorted keyLe (roster app)).
Proof.
  intros Htab.
  assert (H : roster (fst (exportToCsv app)) = arraySort compareStudents (roster app)).
  { pose proof (export_all_sorts_roster app Htab) as H.
    rewrite !listStudents_view, Htab in H.
    assert (Ht : activeTab (fst (exportToCsv app)) = ALL).
    { unfold exportToCsv, filteredStudents. rewrite Htab.
      destruct (deref (heap app) (students app)); cbn; congruence. }
    rewrite Ht in H. exact H. }
  rewrite H. split.
  - intros <-. apply sortStudents_sorted.
  - intros Hs. apply arraySort_sorted_id, keyLe_sorted_cmp, Hs.
Qed.

Lemma export_all_keeps_order_iff_sorted_witness :
  activeTab (rosterOf [lee; kim]) = ALL
  /\ roster (fst (exportToCsv (rosterOf [lee; kim]))) = roster (rosterOf [lee; kim]).
Proof.
  split; [reflexivity|].
  apply (export_all_keeps_order_iff_sorted (rosterOf [lee; kim]) eq_refl).
  change (roster (rosterOf [lee; kim])) with [lee; kim].
  repeat constructor; unfold keyLe; cbn; lia.
Defined.

(** X23. A second export right after the first produces the same file and
    leaves the roster as the first left it. *)
Theorem export_twice_same_file app :
  (students app < nextRef app)%nat ->
  let once := fst (exportToCsv app) in
  snd (exportToCsv once) = snd (exportToCsv app)
  /\ roster (fst (exportToCsv once)) = roster once.
Proof.
  intros Hlt once.
  assert (Hlt' : (students once < nextRef once)%nat).
  { unfold once, exportToCsv, filteredStudents.
    destruct (activeTab app).
    - destruct (deref (heap app) (students app)); cbn; lia.
    - cbn [heap nextRef students activeTab produced].
      destruct (deref (<[nextRef app:=_]> (heap app)) (nextRef app)); cbn; lia. }
  assert (Htab : activeTab once = activeTab app).
  { unfold once, exportToCsv, filteredStudents.
    destruct (activeTab app) eqn:Ht.
    - destruct (deref (heap app) (students app)); cbn; congruence.
    - cbn [heap nextRef students activeTab produced].
      destruct (deref (<[nextRef app:=_]> (heap app)) (nextRef app)); reflexivity. }
  split.
  - rewrite !exportToCsv_snd.
    destruct (exportToCsv_view app Hlt) as [Hv|Hv]; fold once in Hv; rewrite Hv;
      [|reflexivity].
    rewrite sortStudents_idempotent.
    destruct (listStudents app) as [|s l] eqn:Hl; [reflexivity|].
    destruct (arraySort compareStudents (s :: l)) eqn:Hs; [|reflexivity].
    apply arraySort_nil in Hs. discriminate.
  - rewrite (exportToCsv_roster once Hlt'), Htab.
    destruct (activeTab app) eqn:Ht; [|reflexivity].
    unfold once. rewrite (exportToCsv_roster app Hlt), Ht.
    apply sortStudents_idempotent.
Qed.

Lemma export_twice_same_file_witness :
  (students rosterAll < nextRef rosterAll)%nat
  /\ snd (exportToCsv (fst (exportToCsv rosterAll))) = snd (exportToCsv rosterAll).
Proof.
  assert (H : (students rosterAll < nextRef rosterAll)%nat) by (vm_compute; lia).
  split; [exact H|]. exact (proj1 (export_twice_same_file rosterAll H)).
Defined.

(** ** The lines of the file *)

Lemma plainField_noLineBreak f : plainField f = true -> noLineBreak f = true.
Proof. intros H. apply wellFormedField_noLineBreak, wf_plain, H. Qed.

Lemma doubleQuotes_noLineBreak r : noLineBreak r = true -> noLineBreak (doubleQuotes r) = true.
Proof.
  unfold noLineBreak. induction r as [|c r IH]; [reflexivity|].
  cbn [forallb doubleQuotes]. intros H. apply andb_true_iff in H as [Hc Hr].
  destruct (c =? QUOTE); cbn [forallb]; rewrite ?Hc, (IH Hr); reflexivity.
Qed.

Lemma row_singleLine s : singleLine s = true -> noLineBreak (join [COMMA] (rowCells s)) = true.
Proof.
  unfold singleLine. rewrite !andb_true_iff. intros [[Hn Hp] Hr].
  apply noLineBreak_join. unfold rowCells.
  repeat (apply Forall_cons_2; [apply plainField_noLineBreak, numberToString_plain|]).
  apply Forall_cons_2; [apply plainField_noLineBreak, groupText_plain|].
  apply Forall_cons_2; [exact Hn|]. apply Forall_cons_2; [exact Hp|].
  apply Forall_cons_2; [|constructor].
  rewrite quoteRemarks_rfc. unfold rfcQuote, noLineBreak. cbn [forallb].
  rewrite forallb_app. fold (noLineBreak (doubleQuotes (remarks s))).
  rewrite (doubleQuotes_noLineBreak _ Hr). reflexivity.
Qed.

(** X24. When no name, phone or remarks of the view holds a line
    terminator, the exported file has the header as its first line and then
    exactly one line per record, in the order of the export, and each of
    these lines is a data line of the import. *)
Theorem export_one_line_per_record app :
  listStudents app <> [] ->
  Forall (fun s => singleLine s = true) (listStudents app) ->
  exists text sorted,
    snd (exportToCsv app) = Some text
    /\ sorted ≡ₚ listStudents app
    /\ splitLines (readAsText text)
       = join [COMMA] headers :: map (fun s => join [COMMA] (rowCells s)) sorted
    /\ dataLines (readAsText text) = map (fun s => join [COMMA] (rowCells s)) sorted
    /\ length (dataLines (readAsText text)) = length (listStudents app).
Proof.
  intros Hne Hall.
  exists (blobText (arraySort compareStudents (listStudents app))),
         (arraySort compareStudents (listStudents app)).
  pose proof (arraySort_perm compareStudents (listStudents app)) as Hperm.
  assert (Hsorted : Forall (fun s => singleLine s = true)
                      (arraySort compareStudents (listStudents app))).
  { eapply Permutation_Forall; [symmetry; exact Hperm | exact Hall]. }
  assert (Hlines : splitLines (readAsText (blobText (arraySort compareStudents (listStudents app))))
                   = join [COMMA] headers
                     :: map (fun s => join [COMMA] (rowCells s))
                            (arraySort compareStudents (listStudents app))).
  { unfold blobText, readAsText. change (BOM =? BOM) with true. cbn match.
    unfold csvContent. apply splitLines_join; [discriminate|].
    constructor; [reflexivity|]. apply Forall_map.
    eapply Forall_impl; [exact Hsorted|]. intros s. apply row_singleLine. }
  assert (Hdata : dataLines (readAsText (blobText (arraySort compareStudents (listStudents app))))
                  = map (fun s => join [COMMA] (rowCells s))
                        (arraySort compareStudents (listStudents app))).
  { unfold dataLines. rewrite Hlines. cbn [drop]. apply filter_all.
    apply Forall_map, Forall_forall. intros s _. apply row_nonblank. }
  split; [apply exportToCsv_text, Hne|]. split; [exact Hperm|].
  split; [exact Hlines|]. split; [exact Hdata|].
  rewrite Hdata, length_map. apply Permutation_length, Hperm.
Qed.

Lemma export_one_line_per_record_witness :
  listStudents (rosterOf [park; kimLee]) <> []
  /\ Forall (fun s => singleLine s = true) (listStudents (rosterOf [park; kimLee]))
  /\ exists text,
       snd (exportToCsv (rosterOf [park; kimLee])) = Some text
       /\ length (dataLines (readAsText text)) = 2%nat.
Proof.
  assert (H1 : listStudents (rosterOf [park; kimLee]) <> []) by (vm_compute; discriminate).
  assert (H2 : Forall (fun s => singleLine s = true) (listStudents (rosterOf [park; kimLee]))).
  { change (listStudents (rosterOf [park; kimLee])) with [park; kimLee]. repeat constructor. }
  split; [exact H1|]. split; [exact H2|].
  destruct (export_one_line_per_record _ H1 H2) as (text & sorted & Ht & _ & _ & _ & Hlen).
  exists text. split; [exact Ht | exact Hlen].
Defined.

(** ** The cells, written and read back *)

(** X25. Cleaning the quoted form of any text gives the text with the
    white space at its ends removed: the quotes are taken off and each
    doubled quote is single again. *)
Theorem quote_then_clean_is_trim r s :
  clean (Some (rfcQuote r)) = trim r
  /\ clean (Some (quoteRemarks s)) = trim (remarks s).
Proof.
  assert (H : forall x, clean (Some (rfcQuote x)) = trim x).
  { intros x. unfold clean, orEmpty, orElse, rfcQuote, stripQuotes. cbn [stripLeadingQuote].
    change (QUOTE =? QUOTE) with true. cbn match.
    rewrite stripTrailingQuote_closing, collapseQuotes_doubled. reflexivity. }
  split; [apply H | rewrite quoteRemarks_rfc; apply H].
Qed.

(** X26. A number cell written by the export and read by the import gives
    the number back, for every safe integer, except that zero comes back
    as 1. *)
Theorem number_cell_read_back z :
  isSafeInteger z = true ->
  orOne (parseInt (clean (Some (numberToString z)))) = if (z =? 0)%Z then 1%Z else z.
Proof.
  intros _. rewrite (clean_plain _ (numberToString_plain z)), parseInt_numberToString.
  destruct z; reflexivity.
Qed.

Lemma number_cell_read_back_witness :
  isSafeInteger (-42) = true
  /\ orOne (parseInt (clean (Some (numberToString (-42))))) = (-42)%Z.
Proof.
  split; [reflexivity|].
  exact (number_cell_read_back (-42) eq_refl).
Defined.

(** ** Where imported text comes from *)

Lemma splitLines_no_feed_inside s :
  Forall (fun l => ~ In LF l) (splitLines s)
  /\ (forall c, Forall (fun l => ~ In LF l) (splitLines (c :: s))).
Proof.
  assert (Hnil : ~ In LF []) by (intros []).
  induction s as [|d s [IH1 IH2]].
  - split; [constructor; [exact Hnil | constructor]|]. intros c. cbn [splitLines].
    destruct (N.eqb_spec c LF) as [->|Hc].
    + constructor; [exact Hnil|]. constructor; [exact Hnil | constructor].
    + constructor; [|constructor]. intros [?|[]]. congruence.
  - split; [apply IH2|]. intros c.
    change (splitLines (c :: d :: s))
      with (if (c =? CR) && (d =? LF) then [] :: splitLines s
            else if c =? LF then [] :: splitLines (d :: s)
            else match splitLines (d :: s) with
                 | piece :: pieces => (c :: piece) :: pieces
                 | [] => [[c]]
                 end).
    destruct ((c =? CR) && (d =? LF)); [constructor; [exact Hnil|exact IH1]|].
    destruct (N.eqb_spec c LF) as [->|Hc]; [constructor; [exact Hnil|apply IH2]|].
    pose proof (IH2 d) as Hd. destruct (splitLines (d :: s)) as [|p ps].
    + constructor; [|constructor]. intros [?|[]]. congruence.
    + inversion Hd as [|? ? Hp Hps]; subst. constructor; [|exact Hps].
      intros [?|?]; [congruence | contradiction].
Qed.

Lemma dataLines_no_feed text line : In line (dataLines text) -> ~ In LF line.
Proof.
  unfold dataLines. intros Hin.
  apply list_elem_of_In, list_elem_of_filter in Hin as [_ Hin].
  apply list_elem_of_In in Hin.
  assert (Hsub : In line (splitLines text)).
  { destruct (splitLines text) as [|h ls]; [destruct Hin|]. right. exact Hin. }
  pose proof (proj1 (splitLines_no_feed_inside text)) as Hall.
  rewrite Forall_forall in Hall. apply Hall, list_elem_of_In, Hsub.
Qed.

Lemma In_concat_piece (ts : list jsstring) t c : In t ts -> In c t -> In c (concat ts).
Proof. intros Ht Hc. apply in_concat. eauto. Qed.

Lemma splitComma_chars s p c : In p (splitComma s) -> In c p -> In c s.
Proof.
  revert p. induction s as [|d s IH]; intros p; cbn [splitComma].
  - intros [<-|[]] [].
  - destruct (d =? COMMA).
    + intros [<-|Hp] Hc; [destruct Hc | right; eapply IH; eassumption].
    + destruct (splitComma s) as [|q qs] eqn:Hs.
      * intros [<-|[]] [->|[]]. left; reflexivity.
      * intros [<-|Hp] Hc.
        -- destruct Hc as [->|Hc]; [left; reflexivity|]. right. apply (IH q); [left; reflexivity | exact Hc].
        -- right. apply (IH p); [right; exact Hp | exact Hc].
Qed.

Lemma tokenize_chars line t c : In t (tokenize line) -> In c t -> In c line.
Proof.
  unfold tokenize. destruct (matchAll line) as [|t0 ts] eqn:Hm.
  - apply splitComma_chars.
  - intros Ht Hc. rewrite <- Hm in Ht.
    pose proof (matchAll_sublist line) as Hsub.
    apply list_elem_of_In. eapply sublist_subseteq; [exact Hsub|].
    apply list_elem_of_In. eapply In_concat_piece; eassumption.
Qed.

Lemma trimStart_chars s c : In c (trimStart s) -> In c s.
Proof.
  destruct (trimStart_suffix s) as [pre Hpre]. intros H.
  rewrite Hpre. apply in_or_app. right. exact H.
Qed.

Lemma trim_chars s c : In c (trim s) -> In c s.
Proof.
  unfold trim, trimEnd. intros H.
  apply in_rev, trimStart_chars in H. apply in_rev in H.
  apply trimStart_chars, H.
Qed.

Lemma stripTrailingQuote_chars s c : In c (stripTrailingQuote s) -> In c s.
Proof.
  induction s as [|d s IH]; [intros []|].
  destruct s as [|e s].
  - cbn. destruct (d =? QUOTE); [intros [] | auto].
  - change (stripTrailingQuote (d :: e :: s)) with (d :: stripTrailingQuote (e :: s)).
    intros [->|H]; [left; reflexivity | right; apply IH, H].
Qed.

Lemma stripQuotes_chars s c : In c (stripQuotes s) -> In c s.
Proof.
  unfold stripQuotes. intros H. apply stripTrailingQuote_chars in H.
  destruct s as [|d s]; [exact H|]. cbn [stripLeadingQuote] in H.
  destruct (d =? QUOTE); [right; exact H | exact H].
Qed.

Lemma collapseQuotes_chars_aux s :
  (forall x, In x (collapseQuotes s) -> In x s)
  /\ (forall c x, In x (collapseQuotes (c :: s)) -> In x (c :: s)).
Proof.
  induction s as [|d s [IH1 IH2]].
  - split; [intros x []|]. intros c x H. exact H.
  - split; [apply IH2|]. intros c x.
    change (collapseQuotes (c :: d :: s))
      with (if (c =? QUOTE) && (d =? QUOTE) then QUOTE :: collapseQuotes s
            else c :: collapseQuotes (d :: s)).
    destruct ((c =? QUOTE) && (d =? QUOTE)) eqn:Hq.
    + apply andb_true_iff in Hq as [Hc _]. apply N.eqb_eq in Hc as ->.
      intros [<-|H]; [left; reflexivity | right; right; apply IH1, H].
    + intros [<-|H]; [left; reflexivity | right; apply IH2, H].
Qed.

Lemma clean_chars val c : In c (clean val) -> exists t, val = Some t /\ In c t.
Proof.
  unfold clean. intros H.
  apply trim_chars, (proj1 (collapseQuotes_chars_aux _)), stripQuotes_chars in H.
  destruct val as [t|]; [|destruct H]. exists t. split; [reflexivity|].
  cbn [orEmpty] in H. rewrite orElse_nil in H. exact H.
Qed.

Lemma token_chars line i c :
  In c (clean (tokenize line !! i)) -> In c line.
Proof.
  intros H. destruct (clean_chars _ _ H) as (t & Ht & Hc).
  apply (tokenize_chars line t c); [|exact Hc].
  apply list_elem_of_In. eapply list_elem_of_lookup_2. exact Ht.
Qed.

Lemma importRow_chars env k line s :
  importRow env k line = Some s ->
  forall c, In c (name s) \/ In c (phone s) \/ In c (remarks s) -> In c line.
Proof.
  intros H c Hc. apply importRow_Some in H as [Hname ->]. cbn [name phone remarks] in Hc.
  rewrite (orElse_nonempty _ _ Hname), !orElse_nil in Hc.
  destruct Hc as [Hc|[Hc|Hc]]; eapply token_chars; exact Hc.
Qed.

(** X27. Every code unit of the name, the phone and the remarks of a
    record that import produces occurs in the line the record was read
    from: nothing is made up, the placeholder name included. *)
Theorem imported_text_comes_from_line env k line s :
  importRow env k line = Some s ->
  forall c, In c (name s) \/ In c (phone s) \/ In c (remarks s) -> In c line.
Proof. apply importRow_chars. Qed.

Lemma imported_text_comes_from_line_witness :
  importRow clock0 0 (str "1,2,3,b,Kim,010,ok")
  = Some (mkStudent (str "uuid") 1 2 3 GroupB (str "Kim") (str "010") (str "ok") 0)
  /\ In 75 (str "1,2,3,b,Kim,010,ok").
Proof.
  split; [vm_compute; reflexivity|].
  apply (imported_text_comes_from_line clock0 0 (str "1,2,3,b,Kim,010,ok")
           (mkStudent (str "uuid") 1 2 3 GroupB (str "Kim") (str "010") (str "ok") 0)).
  - vm_compute; reflexivity.
  - left. left. reflexivity.
Defined.

Lemma importLoop_In env k lines s :
  In s (importLoop env k lines) ->
  exists k' line, In line lines /\ importRow env k' line = Some s.
Proof.
  revert k. induction lines as [|line lines IH]; intros k; [intros []|].
  cbn [importLoop]. destruct (importRow env k line) as [s0|] eqn:Hrow.
  - intros [<-|H]; [exists k, line; split; [left; reflexivity | exact Hrow]|].
    destruct (IH _ H) as (k' & l & Hl & Hr). exists k', l. split; [right|]; assumption.
  - intros H. destruct (IH _ H) as (k' & l & Hl & Hr). exists k', l.
    split; [right|]; assumption.
Qed.

(** X28. No record that an import produces holds a line feed in its name,
    phone or remarks, whatever the text. *)
Theorem imported_text_has_no_line_feed env k text s :
  In s (importLoop env k (dataLines text)) ->
  ~ In LF (name s) /\ ~ In LF (phone s) /\ ~ In LF (remarks s).
Proof.
  intros H. destruct (importLoop_In _ _ _ _ H) as (k' & line & Hline & Hrow).
  pose proof (dataLines_no_feed text line Hline) as Hlf.
  pose proof (importRow_chars env k' line s Hrow LF) as Hsrc.
  repeat split; intros Hin; apply Hlf, Hsrc; auto.
Qed.

Lemma imported_text_has_no_line_feed_witness :
  In (mkStudent (str "uuid") 1 2 3 GroupA (str "Kim") (str "010") (str "ok") 0)
     (importLoop clock0 0 (dataLines (str "h" ++ LF :: str "1,2,3,A,Kim,010,ok")))
  /\ ~ In LF (str "Kim").
Proof.
  assert (H : In (mkStudent (str "uuid") 1 2 3 GroupA (str "Kim") (str "010") (str "ok") 0)
                 (importLoop clock0 0 (dataLines (str "h" ++ LF :: str "1,2,3,A,Kim,010,ok"))))
    by (vm_compute; left; reflexivity).
  split; [exact H|].
  exact (proj1 (imported_text_has_no_line_feed clock0 0 _ _ H)).
Defined.
